(** * bboltfs: a filesystem view over an ordered key-value store

    Shallow embedding of [bboltfs.go], [file.go] and [dir.go].

    - Go byte slices are [list byte]; Go strings (paths, bucket keys) are
      [string].
    - Fixed-width integers ([os.FileMode] = uint32, [int64]) are [Z]; the
      wrap-around of a conversion or an addition is written out where the
      source performs one.
    - The store ([*BBolt], reached through the [fs] field of every handle)
      is passed explicitly: an operation takes the store and returns the
      store it leaves behind.
    - [time.Now().UnixNano()] is an explicit argument [now].
    - A Go [error] is an [option error], [None] being [nil].
    - A runtime panic (slice bounds out of range) is the [Panics] outcome.
    - The per-handle mutex is not modelled: every operation is one atomic
      step of a single thread. *)

From Stdlib Require Import ZArith Lia List String Ascii.
From coqutil Require Import Byte Word.LittleEndianList.
From stdpp Require Import base gmap list strings sorting.

Local Open Scope Z_scope.

(** ** Errors *)

Inductive error : Type :=
| ErrNotExist          (* os.ErrNotExist, alias ErrFileNotFound *)
| ErrClosed            (* os.ErrClosed *)
| ErrInvalid           (* os.ErrInvalid *)
| EOF                  (* io.EOF *)
| ErrInvalidWhence     (* errors.New("invalid whence") *)
| ErrNegativePosition  (* errors.New("negative position") *)
| ErrKeyRequired       (* bbolt: Put with an empty key *)
| ErrKeyTooLarge       (* bbolt: Put with a key above MaxKeySize *)
| ErrValueTooLarge.    (* bbolt: Put with a value above MaxValueSize *)

#[global] Instance error_eq_dec : EqDecision error.
Proof. solve_decision. Defined.

Inductive outcome (A : Type) : Type :=
| Returns (a : A)
| Panics.
Arguments Returns {A} a.
Arguments Panics {A}.

(** ** Fixed-width integers *)

(** [int64(u)] for a uint64 [u]: two's complement reinterpretation. *)
Definition int64_of_uint64 (u : Z) : Z :=
  if u <? 2 ^ 63 then u else u - 2 ^ 64.

(** Wrap-around of an [int64] addition. *)
Definition wrap64 (z : Z) : Z := int64_of_uint64 (z mod 2 ^ 64).

Definition is_uint32 (z : Z) : Prop := 0 <= z < 2 ^ 32.
Definition is_int64 (z : Z) : Prop := - 2 ^ 63 <= z < 2 ^ 63.

(** ** Metadata codec (bboltfs.go, encodeMeta / decodeMeta / metaLen) *)

Record fileMeta : Type := mkMeta {
  Mode : Z;        (* os.FileMode, a uint32 *)
  Size : Z;        (* int64 *)
  ModTime : Z;     (* int64, UnixNano *)
  IsDir : bool
}.

(** The values a Go [fileMeta] can hold. *)
Definition meta_typed (m : fileMeta) : Prop :=
  is_uint32 (Mode m) /\ is_int64 (Size m) /\ is_int64 (ModTime m).

(** [binary.Write(buf, binary.LittleEndian, v)] for a [width]-byte integer:
    PutUint32 / PutUint64 store byte(v), byte(v>>8), ... and the bytes are
    appended to the buffer. *)
Definition binary_Write (w : list byte) (width : nat) (v : Z) : list byte :=
  w ++ le_split width v.

(** A Go bool is written as the byte 1 or 0. *)
Definition bool_to_Z (b : bool) : Z := if b then 1 else 0.

Definition encodeMeta (meta : fileMeta) : list byte :=
  let w := [] in
  let w := binary_Write w 4 (Mode meta) in
  let w := binary_Write w 8 (Size meta) in
  let w := binary_Write w 8 (ModTime meta) in
  let w := binary_Write w 1 (bool_to_Z (IsDir meta)) in
  w.

(** [binary.Read(r, binary.LittleEndian, &x)] on a [bytes.Reader] holding
    [r]: io.ReadFull either gets [width] bytes, or drains the reader and
    fails, in which case [x] keeps its zero value (the source drops the
    error). *)
Definition binary_Read (r : list byte) (width : nat)
  : option Z * list byte :=
  if decide (width <= length r)%nat
  then (Some (le_combine (take width r)), drop width r)
  else (None, []).

Definition decodeMeta (b : list byte) : fileMeta :=
  let r := b in
  let '(mode, r) := binary_Read r 4 in
  let '(size, r) := binary_Read r 8 in
  let '(mtime, r) := binary_Read r 8 in
  let '(isdir, r) := binary_Read r 1 in
  {| Mode := default 0 mode;
     Size := default 0 (int64_of_uint64 <$> size);
     ModTime := default 0 (int64_of_uint64 <$> mtime);
     IsDir := default false ((fun z => negb (z =? 0)) <$> isdir) |}.

Definition metaLen : nat := 4 + 8 + 8 + 1.

(** ** bytes.Buffer

    [buf] is the underlying slice and [off] the read cursor: the unread
    bytes are [buf[off:]]. *)

Record Buffer : Type := mkBuffer {
  buf : list byte;
  off : nat
}.

Definition NewBuffer (data : list byte) : Buffer :=
  {| buf := data; off := 0 |}.

Definition Bytes (b : Buffer) : list byte := drop (off b) (buf b).

Definition Len (b : Buffer) : nat := (length (buf b) - off b)%nat.

(** [copy(dst, src)]: the new contents of [dst] and the number of bytes
    copied, min(len(dst), len(src)). *)
Definition copy (dst src : list byte) : list byte * nat :=
  let n := Nat.min (length dst) (length src) in
  (take n src ++ drop n dst, n).

(** [b.Read(p)] with [len(p) = n]. The result carries the bytes copied into
    the front of [p]; their number is the returned count. An empty buffer is
    reset, and reports io.EOF unless [p] is empty too. *)
Definition Buffer_Read (b : Buffer) (n : nat)
  : (list byte * option error) * Buffer :=
  if decide (length (buf b) <= off b)%nat
  then (([], match n with O => None | _ => Some EOF end),
        {| buf := []; off := 0 |})
  else
    let out := take n (Bytes b) in
    ((out, None), {| buf := buf b; off := (off b + length out)%nat |}).

(** [b.Write(p)] appends [p] and returns [len(p)] (the error is always nil).
    The compaction [grow] may perform moves [buf] and [off] together and
    leaves the unread bytes as they are; it is not modelled. *)
Definition Buffer_Write (b : Buffer) (p : list byte) : nat * Buffer :=
  (length p, {| buf := buf b ++ p; off := off b |}).

(** [make([]byte, n)] *)
Definition make (n : nat) : list byte := replicate n Byte.x00.

(** ** The key-value backend

    A bbolt bucket is an ordered map from keys to values. Of bbolt's [Put]
    the model keeps the three argument checks; [Get] of a missing key is nil
    and [Delete] of a missing key succeeds. A closed database and I/O
    failures of the backing file are outside the model. *)

Abbreviation bucket := (gmap string (list byte)).

Definition MaxKeySize : Z := 32768.
Definition MaxValueSize : Z := 2 ^ 31 - 2.

Definition Put (b : bucket) (key : string) (value : list byte)
  : option error * bucket :=
  if (String.length key =? 0)%nat then (Some ErrKeyRequired, b)
  else if MaxKeySize <? Z.of_nat (String.length key) then (Some ErrKeyTooLarge, b)
  else if MaxValueSize <? Z.of_nat (length value) then (Some ErrValueTooLarge, b)
  else (None, <[key := value]> b).

Definition Get (b : bucket) (key : string) : option (list byte) := b !! key.

Definition Delete (b : bucket) (key : string) : bucket := delete key b.

(** A cursor walks the keys of a bucket in byte order. Its state is the
    list of keys at and after its position: [c.Seek(k)] moves to the first
    key not below [k], [c.Next()] drops the head. Deleting the key under the
    cursor leaves the keys after it in place. *)
Definition cursor_keys (b : bucket) : list string :=
  merge_sort String.le (map_to_list b).*1.

Fixpoint skip_below (seek : string) (ks : list string) : list string :=
  match ks with
  | [] => []
  | k :: ks' => if decide (String.le seek k) then ks else skip_below seek ks'
  end.

Definition Cursor_Seek (b : bucket) (seek : string) : list string :=
  skip_below seek (cursor_keys b).

(** ** The store (bboltfs.go) *)

Record BBolt : Type := mkBBolt {
  files : bucket;   (* bucket "files" *)
  dirs : bucket     (* bucket "dirs" *)
}.

(** The store [New] returns on a fresh database file. *)
Definition New : BBolt := {| files := ∅; dirs := ∅ |}.

Definition saveFile (fs : BBolt) (name : string) (data : list byte)
    (meta : fileMeta) : option error * BBolt :=
  let key := name in
  let val := encodeMeta meta ++ data in
  let '(err, b) := Put (files fs) key val in
  (err, {| files := b; dirs := dirs fs |}).

Definition zeroMeta : fileMeta :=
  {| Mode := 0; Size := 0; ModTime := 0; IsDir := false |}.

(** [val[fs.metaLen():]] panics on a value shorter than the header. *)
Definition loadFile (fs : BBolt) (name : string)
  : outcome (list byte * fileMeta * option error) :=
  match Get (files fs) name with
  | None => Returns ([], zeroMeta, Some ErrNotExist)
  | Some val =>
      let meta := decodeMeta val in
      if decide (metaLen <= length val)%nat
      then Returns (drop metaLen val, meta, None)
      else Panics
  end.

Definition saveDir (fs : BBolt) (name : string) (meta : fileMeta)
  : option error * BBolt :=
  let '(err, b) := Put (dirs fs) name (encodeMeta meta) in
  (err, {| files := files fs; dirs := b |}).

(** ** Handles (file.go, dir.go) *)

Record bboltFile : Type := mkFile {
  name : string;
  meta : fileMeta;
  buffer : Buffer;
  offset : Z;       (* int64 *)
  closed : bool
}.

Record bboltDirFile : Type := mkDirFile {
  dname : string;
  dmeta : fileMeta
}.

(** A value of the [File] interface. *)
Inductive File : Type :=
| AFile (f : bboltFile)
| ADir (d : bboltDirFile).

Inductive result (A : Type) : Type :=
| Ok (a : A)
| Err (e : error).
Arguments Ok {A} a.
Arguments Err {A} e.

(** ** Store operations *)

Definition Create (fs : BBolt) (name : string) (now : Z)
  : result File * BBolt :=
  let meta := {| Mode := 438 (* 0666 *); Size := 0; ModTime := now; IsDir := false |} in
  let b := {| buf := []; off := 0 |} in
  match saveFile fs name (Bytes b) meta with
  | (Some err, fs') => (Err err, fs')
  | (None, fs') =>
      (Ok (AFile {| name := name; meta := meta; buffer := b;
                    offset := 0; closed := false |}), fs')
  end.

(** [os.ModeDir] is bit 31 of the mode. *)
Definition ModeDir : Z := Z.shiftl 1 31.

Definition Mkdir (fs : BBolt) (name : string) (perm : Z) (now : Z)
  : option error * BBolt :=
  let meta := {| Mode := Z.lor perm ModeDir; Size := 0; ModTime := now;
                 IsDir := true |} in
  saveDir fs name meta.

Definition Open (fs : BBolt) (name : string) : outcome (result File) :=
  match loadFile fs name with
  | Panics => Panics
  | Returns (data, meta, None) =>
      Returns (Ok (AFile {| name := name; meta := meta;
                            buffer := NewBuffer data;
                            offset := 0; closed := false |}))
  | Returns (_, _, Some _) =>
      match Get (dirs fs) name with
      | Some val =>
          Returns (Ok (ADir {| dname := name; dmeta := decodeMeta val |}))
      | None => Returns (Err ErrNotExist)
      end
  end.

Definition Remove (fs : BBolt) (name : string) : option error * BBolt :=
  (None, {| files := Delete (files fs) name; dirs := dirs fs |}).

(** The loop of [RemoveAll]:
    [for k, _ := c.Seek(prefix); k != nil && bytes.HasPrefix(k, prefix);
         k, _ = c.Next() { b.Delete(k) }]
    with [c] the keys at and after the cursor. *)
Fixpoint RemoveAll_loop (prefix : string) (c : list string) (b : bucket)
  : bucket :=
  match c with
  | [] => b
  | k :: c' =>
      if String.prefix prefix k
      then RemoveAll_loop prefix c' (Delete b k)
      else b
  end.

Definition RemoveAll (fs : BBolt) (p : string) : option error * BBolt :=
  let prefix := p in
  let b := RemoveAll_loop prefix (Cursor_Seek (files fs) prefix) (files fs) in
  (None, {| files := b; dirs := Delete (dirs fs) p |}).

Definition Rename (fs : BBolt) (oldname newname : string)
  : outcome (option error * BBolt) :=
  match loadFile fs oldname with
  | Panics => Panics
  | Returns (_, _, Some err) => Returns (Some err, fs)
  | Returns (data, meta, None) =>
      match saveFile fs newname data meta with
      | (Some err, fs') => Returns (Some err, fs')
      | (None, fs') => Returns (Remove fs' oldname)
      end
  end.

Definition Chmod (fs : BBolt) (name : string) (mode : Z)
  : outcome (option error * BBolt) :=
  match loadFile fs name with
  | Panics => Panics
  | Returns (_, _, Some err) => Returns (Some err, fs)
  | Returns (data, meta, None) =>
      let meta := {| Mode := mode; Size := Size meta;
                     ModTime := ModTime meta; IsDir := IsDir meta |} in
      Returns (saveFile fs name data meta)
  end.

(** [mtime] is the value of [mtime.UnixNano()]. *)
Definition Chtimes (fs : BBolt) (name : string) (atime mtime : Z)
  : outcome (option error * BBolt) :=
  match loadFile fs name with
  | Panics => Panics
  | Returns (_, _, Some err) => Returns (Some err, fs)
  | Returns (data, meta, None) =>
      let meta := {| Mode := Mode meta; Size := Size meta;
                     ModTime := mtime; IsDir := IsDir meta |} in
      Returns (saveFile fs name data meta)
  end.

(** ** File handle operations (file.go)

    A destination slice [p] is given by its length [n]; the result carries
    the bytes copied into its front, whose number is the returned count. *)

Definition set_buffer (b : Buffer) (f : bboltFile) : bboltFile :=
  {| name := name f; meta := meta f; buffer := b;
     offset := offset f; closed := closed f |}.

Definition set_offset (o : Z) (f : bboltFile) : bboltFile :=
  {| name := name f; meta := meta f; buffer := buffer f;
     offset := o; closed := closed f |}.

(** [f.meta.Size = size; f.meta.ModTime = now] *)
Definition touch (size now : Z) (f : bboltFile) : bboltFile :=
  {| name := name f;
     meta := {| Mode := Mode (meta f); Size := size; ModTime := now;
                IsDir := IsDir (meta f) |};
     buffer := buffer f; offset := offset f; closed := closed f |}.

Definition bboltFile_Read (f : bboltFile) (n : nat)
  : (list byte * option error) * bboltFile :=
  if closed f then (([], Some ErrClosed), f)
  else
    let '(r, b) := Buffer_Read (buffer f) n in
    (r, set_buffer b f).

(** [buf[off:]] panics on a negative [off]. *)
Definition bboltFile_ReadAt (f : bboltFile) (n : nat) (off : Z)
  : outcome ((list byte * option error) * bboltFile) :=
  if closed f then Returns (([], Some ErrClosed), f)
  else
    let buf := Bytes (buffer f) in
    if Z.of_nat (length buf) <=? off then Returns (([], Some EOF), f)
    else if off <? 0 then Panics
    else
      let out := take n (drop (Z.to_nat off) buf) in
      if (length out =? 0)%nat then Returns (([], Some EOF), f)
      else Returns ((out, None), f).

Definition SeekStart : Z := 0.
Definition SeekCurrent : Z := 1.
Definition SeekEnd : Z := 2.

Definition bboltFile_Seek (f : bboltFile) (offset whence : Z)
  : (Z * option error) * bboltFile :=
  if closed f then ((0, Some ErrClosed), f)
  else
    let abs :=
      if whence =? SeekStart then Some offset
      else if whence =? SeekCurrent
           then Some (wrap64 (Z.of_nat (Len (buffer f)) + offset))
      else if whence =? SeekEnd
           then Some (wrap64 (Z.of_nat (Len (buffer f)) + offset))
      else None in
    match abs with
    | None => ((0, Some ErrInvalidWhence), f)
    | Some abs =>
        if abs <? 0 then ((0, Some ErrNegativePosition), f)
        else ((abs, None), set_offset abs f)
    end.

Definition bboltFile_Write (f : bboltFile) (p : list byte) (now : Z)
    (fs : BBolt) : (nat * option error) * bboltFile * BBolt :=
  if closed f then ((0%nat, Some ErrClosed), f, fs)
  else
    let '(n, b) := Buffer_Write (buffer f) p in
    let f := set_buffer b f in
    let f := touch (Z.of_nat (Len (buffer f))) now f in
    let '(err, fs) := saveFile fs (name f) (Bytes (buffer f)) (meta f) in
    ((n, err), f, fs).

(** [tmp[off:]] panics when [off] is negative or above [len(tmp)]. *)
Definition bboltFile_WriteAt (f : bboltFile) (p : list byte) (off : Z)
    (now : Z) (fs : BBolt)
  : outcome ((nat * option error) * bboltFile * BBolt) :=
  if closed f then Returns ((0%nat, Some ErrClosed), f, fs)
  else
    let buf := Bytes (buffer f) in
    let f :=
      if Z.of_nat (length buf) <? off
      then
        let padding := make (Z.to_nat (off - Z.of_nat (length buf))) in
        set_buffer (snd (Buffer_Write (buffer f) padding)) f
      else f in
    let buf := Bytes (buffer f) in
    let tmp := make (length buf) in
    let tmp := fst (copy tmp buf) in
    if (off <? 0) || (Z.of_nat (length tmp) <? off) then Panics
    else
      let tmp := take (Z.to_nat off) tmp
                 ++ fst (copy (drop (Z.to_nat off) tmp) p) in
      let f := set_buffer (NewBuffer tmp) f in
      let f := touch (Z.of_nat (Len (buffer f))) now f in
      let '(err, fs) := saveFile fs (name f) (Bytes (buffer f)) (meta f) in
      Returns ((length p, err), f, fs).

(** [[]byte(s)] *)
Definition bboltFile_WriteString (f : bboltFile) (s : string) (now : Z)
    (fs : BBolt) : (nat * option error) * bboltFile * BBolt :=
  bboltFile_Write f (list_byte_of_string s) now fs.

Definition bboltFile_Close (f : bboltFile) : option error * bboltFile :=
  (None, {| name := name f; meta := meta f; buffer := buffer f;
            offset := offset f; closed := true |}).

(** [buf[:size]] panics on a negative [size]. *)
Definition bboltFile_Truncate (f : bboltFile) (size : Z) (now : Z)
    (fs : BBolt) : outcome (option error * bboltFile * BBolt) :=
  if closed f then Returns (Some ErrClosed, f, fs)
  else
    let buf := Bytes (buffer f) in
    let b :=
      if size <? Z.of_nat (length buf)
      then if size <? 0 then Panics
           else Returns (NewBuffer (take (Z.to_nat size) buf))
      else if Z.of_nat (length buf) <? size
      then
        let padding := make (Z.to_nat (size - Z.of_nat (length buf))) in
        Returns (snd (Buffer_Write (buffer f) padding))
      else Returns (buffer f) in
    match b with
    | Panics => Panics
    | Returns b =>
        let f := set_buffer b f in
        let f := touch size now f in
        let '(err, fs) := saveFile fs (name f) (Bytes (buffer f)) (meta f) in
        Returns (err, f, fs)
    end.

(** ** Directory handle operations (dir.go) *)

Definition bboltDirFile_Read (d : bboltDirFile) (n : nat)
  : list byte * option error := ([], Some EOF).
Definition bboltDirFile_ReadAt (d : bboltDirFile) (n : nat) (off : Z)
  : list byte * option error := ([], Some EOF).
Definition bboltDirFile_Seek (d : bboltDirFile) (offset whence : Z)
  : Z * option error := (0, Some EOF).
Definition bboltDirFile_Write (d : bboltDirFile) (p : list byte)
  : nat * option error := (0%nat, Some ErrInvalid).
Definition bboltDirFile_WriteAt (d : bboltDirFile) (p : list byte) (off : Z)
  : nat * option error := (0%nat, Some ErrInvalid).
Definition bboltDirFile_WriteString (d : bboltDirFile) (s : string)
  : nat * option error := (0%nat, Some ErrInvalid).
Definition bboltDirFile_Close (d : bboltDirFile) : option error := None.
Definition bboltDirFile_Truncate (d : bboltDirFile) (size : Z)
  : option error := Some ErrInvalid.

(** ** Calls through the [File] interface

    A method call on a [File] value runs the method of the handle inside
    it. Every call is given the store and returns the handle and the store
    as the method left them. *)

Definition File_Read (h : File) (n : nat) (fs : BBolt)
  : outcome ((list byte * option error) * File * BBolt) :=
  match h with
  | AFile f => let '(r, f') := bboltFile_Read f n in Returns (r, AFile f', fs)
  | ADir d => Returns (bboltDirFile_Read d n, h, fs)
  end.

Definition File_ReadAt (h : File) (n : nat) (off : Z) (fs : BBolt)
  : outcome ((list byte * option error) * File * BBolt) :=
  match h with
  | AFile f =>
      match bboltFile_ReadAt f n off with
      | Returns (r, f') => Returns (r, AFile f', fs)
      | Panics => Panics
      end
  | ADir d => Returns (bboltDirFile_ReadAt d n off, h, fs)
  end.

Definition File_Seek (h : File) (offset whence : Z) (fs : BBolt)
  : outcome ((Z * option error) * File * BBolt) :=
  match h with
  | AFile f =>
      let '(r, f') := bboltFile_Seek f offset whence in
      Returns (r, AFile f', fs)
  | ADir d => Returns (bboltDirFile_Seek d offset whence, h, fs)
  end.

Definition File_Write (h : File) (p : list byte) (now : Z) (fs : BBolt)
  : outcome ((nat * option error) * File * BBolt) :=
  match h with
  | AFile f =>
      let '(r, f', fs') := bboltFile_Write f p now fs in
      Returns (r, AFile f', fs')
  | ADir d => Returns (bboltDirFile_Write d p, h, fs)
  end.

Definition File_WriteAt (h : File) (p : list byte) (off : Z) (now : Z)
    (fs : BBolt) : outcome ((nat * option error) * File * BBolt) :=
  match h with
  | AFile f =>
      match bboltFile_WriteAt f p off now fs with
      | Returns (r, f', fs') => Returns (r, AFile f', fs')
      | Panics => Panics
      end
  | ADir d => Returns (bboltDirFile_WriteAt d p off, h, fs)
  end.

Definition File_WriteString (h : File) (s : string) (now : Z) (fs : BBolt)
  : outcome ((nat * option error) * File * BBolt) :=
  match h with
  | AFile f =>
      let '(r, f', fs') := bboltFile_WriteString f s now fs in
      Returns (r, AFile f', fs')
  | ADir d => Returns (bboltDirFile_WriteString d s, h, fs)
  end.

Definition File_Truncate (h : File) (size : Z) (now : Z) (fs : BBolt)
  : outcome (option error * File * BBolt) :=
  match h with
  | AFile f =>
      match bboltFile_Truncate f size now fs with
      | Returns (r, f', fs') => Returns (r, AFile f', fs')
      | Panics => Panics
      end
  | ADir d => Returns (bboltDirFile_Truncate d size, h, fs)
  end.

Definition File_Close (h : File) : option error * File :=
  match h with
  | AFile f => let '(r, f') := bboltFile_Close f in (r, AFile f')
  | ADir d => (bboltDirFile_Close d, h)
  end.

(** ** Predicates used by the statements *)

(** A key [Put] accepts. *)
Definition valid_key (k : string) : Prop :=
  (0 < String.length k)%nat /\ Z.of_nat (String.length k) <= MaxKeySize.

(** The stored value of a file entry: header, then payload, with the size
    field of the header equal to the length of the payload. *)
Definition entry_ok (v : list byte) : Prop :=
  (metaLen <= length v)%nat /\
  Size (decodeMeta v) = Z.of_nat (length (drop metaLen v)).

Definition files_inv (fs : BBolt) : Prop :=
  forall k v, files fs !! k = Some v -> entry_ok v.

(** Applying a function to what an operation returns, when it returns. *)
Definition outcome_map {A B : Type} (g : A -> B) (o : outcome A) : outcome B :=
  match o with
  | Returns a => Returns (g a)
  | Panics => Panics
  end.

(** [off <= len(buf)], which bytes.Buffer maintains. *)
Definition Buffer_ok (b : Buffer) : Prop := (off b <= length (buf b))%nat.

(** The bytes [WriteAt] leaves in the buffer: the old bytes, zero-padded up
    to [off], with the part of [p] that fits below the old end (or below
    [off], once padded) copied in at [off]. *)
Definition WriteAt_bytes (old p : list byte) (o : nat) : list byte :=
  let base := old ++ make (o - length old) in
  take o base ++ fst (copy (drop o base) p).

(** The stores a program can reach from a fresh one through the
    operations of the store and of file handles. The handles are
    arbitrary but for their buffer, which is a bytes.Buffer. *)
Inductive reachable : BBolt -> Prop :=
| reach_New : reachable New
| reach_Create fs p now :
    reachable fs -> reachable (snd (Create fs p now))
| reach_Mkdir fs p perm now :
    reachable fs -> reachable (snd (Mkdir fs p perm now))
| reach_Remove fs p :
    reachable fs -> reachable (snd (Remove fs p))
| reach_RemoveAll fs p :
    reachable fs -> reachable (snd (RemoveAll fs p))
| reach_Rename fs oldname newname e fs' :
    reachable fs -> Rename fs oldname newname = Returns (e, fs') ->
    reachable fs'
| reach_Chmod fs k mode e fs' :
    reachable fs -> Chmod fs k mode = Returns (e, fs') -> reachable fs'
| reach_Chtimes fs k atime mtime e fs' :
    reachable fs -> Chtimes fs k atime mtime = Returns (e, fs') ->
    reachable fs'
| reach_Write fs f p now :
    reachable fs -> reachable (snd (bboltFile_Write f p now fs))
| reach_WriteAt fs f p pos now r f' fs' :
    reachable fs ->
    bboltFile_WriteAt f p pos now fs = Returns (r, f', fs') ->
    reachable fs'
| reach_Truncate fs f size now e f' fs' :
    reachable fs -> Buffer_ok (buffer f) ->
    bboltFile_Truncate f size now fs = Returns (e, f', fs') ->
    reachable fs'.

(** ** Listing, metadata views and the remaining store operations *)

(** [strings.HasPrefix], [strings.TrimPrefix], [strings.HasSuffix] and
    [strings.Contains]; [string_drop n s] is the slice [s[n:]]. *)
Definition HasPrefix (s prefix : string) : bool := String.prefix prefix s.

Fixpoint string_drop (n : nat) (s : string) : string :=
  match n, s with
  | O, _ => s
  | S n', String _ s' => string_drop n' s'
  | S _, EmptyString => EmptyString
  end.

Definition TrimPrefix (s prefix : string) : string :=
  if HasPrefix s prefix then string_drop (String.length prefix) s else s.

Definition HasSuffix (s suffix : string) : bool :=
  (String.length suffix <=? String.length s)%nat
  && String.eqb
       (string_drop (String.length s - String.length suffix) s) suffix.

Fixpoint Contains (s substr : string) : bool :=
  String.prefix substr s
  || match s with
     | EmptyString => false
     | String _ s' => Contains s' substr
     end.

Definition is_sep (a : ascii) : bool := Ascii.eqb a "/".

Fixpoint drop_seps (l : list ascii) : list ascii :=
  match l with
  | a :: l' => if is_sep a then drop_seps l' else l
  | [] => []
  end.

Fixpoint until_sep (l : list ascii) : list ascii :=
  match l with
  | a :: l' => if is_sep a then [] else a :: until_sep l'
  | [] => []
  end.

(** [filepath.Base] where the separator is the slash and there is no
    volume name: "." for the empty path; otherwise trailing slashes are
    stripped and the element after the last slash is returned, "/" when
    nothing is left. Both loops of the source run from the end of the
    path, here over the reversed path. *)
Definition Base (path : string) : string :=
  if String.eqb path "" then "."
  else
    let r := drop_seps (rev (list_ascii_of_string path)) in
    let e := until_sep r in
    match e with
    | [] => "/"
    | _ => string_of_list_ascii (rev e)
    end.

(** [fileInfo]; a [time.Time] built by [time.Unix(0, ns)] is given by
    [ns]. *)
Record fileInfo : Type := mkInfo {
  fi_name : string;
  fi_size : Z;
  fi_mode : Z;
  fi_modTime : Z;
  fi_isDir : bool
}.

(** The view [Stat], [readDir] and the handles build from a metadata
    record. *)
Definition info_of (nm : string) (m : fileMeta) : fileInfo :=
  {| fi_name := nm; fi_size := Size m; fi_mode := Mode m;
     fi_modTime := ModTime m; fi_isDir := IsDir m |}.

Definition dir_info_of (nm : string) (m : fileMeta) : fileInfo :=
  {| fi_name := nm; fi_size := 0; fi_mode := Mode m;
     fi_modTime := ModTime m; fi_isDir := true |}.

Definition Stat (fs : BBolt) (name : string) : outcome (result fileInfo) :=
  match loadFile fs name with
  | Panics => Panics
  | Returns (_, _, Some err) =>
      match Get (dirs fs) name with
      | None => Returns (Err err)
      | Some val => Returns (Ok (dir_info_of (Base name) (decodeMeta val)))
      end
  | Returns (_, meta, None) => Returns (Ok (info_of (Base name) meta))
  end.

Definition bboltFile_Stat (f : bboltFile) : result fileInfo :=
  Ok (info_of (Base (name f)) (meta f)).

Definition bboltDirFile_Stat (d : bboltDirFile) : result fileInfo :=
  Ok (dir_info_of (Base (dname d)) (dmeta d)).

(** The keys of a bucket with their values, as a cursor started with
    [c.First()] and advanced with [c.Next()] yields them. *)
Definition cursor_entries (b : bucket) : list (string * list byte) :=
  (fun k => (k, default [] (b !! k))) <$> cursor_keys b.

(** The loop of [readDir] over the entries at and after the cursor, with
    the slice [fis] collected so far; [count] is a Go [int]. *)
Fixpoint readDir_loop (prefix : string) (count : Z)
    (c : list (string * list byte)) (fis : list fileInfo) : list fileInfo :=
  match c with
  | [] => fis
  | (k, v) :: c' =>
      if negb (HasPrefix k prefix) then readDir_loop prefix count c' fis
      else
        let rest := TrimPrefix k prefix in
        if String.eqb rest "" || Contains rest "/"
        then readDir_loop prefix count c' fis
        else
          let meta := decodeMeta v in
          let fis := fis ++ [info_of rest meta] in
          if (0 <? count) && (count <=? Z.of_nat (length fis)) then fis
          else readDir_loop prefix count c' fis
  end.

Definition readDir_prefix (dir : string) : string :=
  if negb (HasSuffix dir "/") && negb (String.eqb dir "")
  then String.append dir "/" else dir.

Definition readDir (fs : BBolt) (dir : string) (count : Z)
  : list fileInfo * option error :=
  let prefix := readDir_prefix dir in
  (readDir_loop prefix count (cursor_entries (files fs)) [], None).

Definition bboltFile_Readdir (f : bboltFile) (count : Z) (fs : BBolt)
  : list fileInfo * option error := readDir fs (name f) count.

Definition bboltFile_Readdirnames (f : bboltFile) (n : Z) (fs : BBolt)
  : list string * option error :=
  match readDir fs (name f) n with
  | (_, Some err) => ([], Some err)
  | (infos, None) => (fi_name <$> infos, None)
  end.

Definition bboltDirFile_Readdir (d : bboltDirFile) (count : Z) (fs : BBolt)
  : list fileInfo * option error := readDir fs (dname d) count.

Definition bboltDirFile_Readdirnames (d : bboltDirFile) (n : Z) (fs : BBolt)
  : list string * option error :=
  match readDir fs (dname d) n with
  | (_, Some err) => ([], Some err)
  | (infos, None) => (fi_name <$> infos, None)
  end.

(** [os.O_WRONLY], [os.O_RDWR] and, with its Linux value, [os.O_CREATE]. *)
Definition O_WRONLY : Z := 1.
Definition O_RDWR : Z := 2.
Definition O_CREATE : Z := 64.

Definition OpenFile (fs : BBolt) (name : string) (flag : Z) (perm : Z)
    (now : Z) : outcome (result File) * BBolt :=
  if negb (Z.land flag (Z.lor (Z.lor O_CREATE O_RDWR) O_WRONLY) =? 0)
  then let '(r, fs') := Create fs name now in (Returns r, fs')
  else (Open fs name, fs).

(** [Chown] does nothing. *)
Definition Chown (fs : BBolt) (name : string) (uid gid : Z)
  : option error * BBolt := (None, fs).

(** What [Put] has checked of every stored entry: the key is one it
    accepts and the value is within its limit; a directory entry is a bare
    header. *)
Definition stored_ok (fs : BBolt) : Prop :=
  (forall k v, files fs !! k = Some v ->
     valid_key k /\ Z.of_nat (length v) <= MaxValueSize) /\
  (forall k v, dirs fs !! k = Some v ->
     valid_key k /\ length v = metaLen).

(** The listing entry of a stored file under a prefix, if it is a direct
    child: the key extends the prefix by a non-empty name without a
    slash. *)
Definition listed (prefix : string) (kv : string * list byte)
  : option fileInfo :=
  if HasPrefix kv.1 prefix
  then
    let rest := TrimPrefix kv.1 prefix in
    if String.eqb rest "" || Contains rest "/" then None
    else Some (info_of rest (decodeMeta kv.2))
  else None.

(** The first [count] elements when [count] is positive, all of them
    otherwise. *)
Definition limit {A : Type} (count : Z) (l : list A) : list A :=
  if 0 <? count then take (Z.to_nat count) l else l.

(** ** MkdirAll: path cleaning, splitting and joining

    [filepath.Clean] where the separator is the slash and there is no
    volume name ([path.Clean] is the same function there). The output
    buffer is kept reversed: [rout] holds [out.buf[:out.w]] last byte
    first. *)

Definition is_dot (a : ascii) : bool := Ascii.eqb a ".".

(** The inner loop of the ".." case, entered after [out.w--] with [last]
    the byte at index [out.w]:
    [for out.w > dotdot && !IsPathSeparator(out.index(out.w)) { out.w-- }] *)
Fixpoint Clean_backtrack (rout : list ascii) (last : ascii) (dotdot : nat)
  : list ascii :=
  match rout with
  | [] => []
  | y :: rout' =>
      if (dotdot <? length rout)%nat && negb (is_sep last)
      then Clean_backtrack rout' y dotdot
      else rout
  end.

(** [for ; r < n && !IsPathSeparator(path[r]); r++ { out.append(path[r]) }]:
    the input left and the output. *)
Fixpoint Clean_copy (rest rout : list ascii) : list ascii * list ascii :=
  match rest with
  | a :: rest' =>
      if is_sep a then (rest, rout) else Clean_copy rest' (a :: rout)
  | [] => ([], rout)
  end.

(** The main loop [for r < n { switch ... }] on the input [path[r:]]; every
    turn consumes at least one byte, so [length rest] turns are enough. *)
Fixpoint Clean_loop (fuel : nat) (rooted : bool) (rest rout : list ascii)
    (dotdot : nat) : list ascii :=
  match fuel with
  | O => rout
  | S fuel' =>
      match rest with
      | [] => rout
      | a :: rest1 =>
          if is_sep a then Clean_loop fuel' rooted rest1 rout dotdot
          else if is_dot a
                  && match rest1 with
                     | [] => true
                     | b :: _ => is_sep b
                     end
          then Clean_loop fuel' rooted rest1 rout dotdot
          else if is_dot a
                  && match rest1 with
                     | b :: rest2 =>
                         is_dot b
                         && match rest2 with
                            | [] => true
                            | c :: _ => is_sep c
                            end
                     | [] => false
                     end
          then
            let rest2 := drop 1 rest1 in
            if (dotdot <? length rout)%nat
            then
              match rout with
              | last :: rout' =>
                  Clean_loop fuel' rooted rest2
                    (Clean_backtrack rout' last dotdot) dotdot
              | [] => Clean_loop fuel' rooted rest2 rout dotdot
              end
            else if negb rooted
            then
              let rout :=
                if (0 <? length rout)%nat then "/"%char :: rout else rout in
              let rout := "."%char :: "."%char :: rout in
              Clean_loop fuel' rooted rest2 rout (length rout)
            else Clean_loop fuel' rooted rest2 rout dotdot
          else
            let rout :=
              if (rooted && negb (length rout =? 1)%nat)
                 || (negb rooted && negb (length rout =? 0)%nat)
              then "/"%char :: rout else rout in
            let '(rest', rout) := Clean_copy rest rout in
            Clean_loop fuel' rooted rest' rout dotdot
      end
  end.

Definition Clean (path : string) : string :=
  let l := list_ascii_of_string path in
  match l with
  | [] => "."
  | a :: _ =>
      let rooted := is_sep a in
      let out :=
        if rooted then Clean_loop (length l) rooted (drop 1 l) ["/"%char] 1
        else Clean_loop (length l) rooted l [] 0 in
      match out with
      | [] => "."
      | _ => string_of_list_ascii (rev out)
      end
  end.

(** [strings.Split(s, "/")]: the pieces between the slashes, [cur] being
    the piece under way, reversed. *)
Fixpoint Split_loop (l cur : list ascii) : list string :=
  match l with
  | [] => [string_of_list_ascii (rev cur)]
  | a :: l' =>
      if is_sep a then string_of_list_ascii (rev cur) :: Split_loop l' []
      else Split_loop l' (a :: cur)
  end.

Definition Split (s : string) : list string :=
  Split_loop (list_ascii_of_string s) [].

(** [path.Join(a, b)]: the non-empty elements joined by slashes and
    cleaned, the empty string when both are empty. *)
Definition Join (a b : string) : string :=
  if String.eqb a "" && String.eqb b "" then ""
  else if String.eqb a "" then Clean b
  else if String.eqb b "" then Clean a
  else Clean (String.append a (String.append "/" b)).

(** The loop of [MkdirAll]; [clock i] is the reading of the clock by the
    [i]-th [Mkdir]. No error of the model is [os.ErrExist], so every
    error ends the walk. *)
Fixpoint MkdirAll_loop (fs : BBolt) (ds : list string) (dir : string)
    (perm : Z) (clock : nat -> Z) (i : nat) : option error * BBolt :=
  match ds with
  | [] => (None, fs)
  | d :: ds' =>
      let dir := if String.eqb dir "" then d else Join dir d in
      match Mkdir fs dir perm (clock i) with
      | (Some err, fs') => (Some err, fs')
      | (None, fs') => MkdirAll_loop fs' ds' dir perm clock (S i)
      end
  end.

Definition MkdirAll (fs : BBolt) (p : string) (perm : Z) (clock : nat -> Z)
  : option error * BBolt :=
  let ds := Split (Clean p) in
  MkdirAll_loop fs ds "" perm clock 0.

(** A plain path element: not empty, without a slash, and neither "."
    nor "..". *)
Definition plain (s : string) : Prop :=
  s <> ""%string /\ Contains s "/" = false /\
  s <> "."%string /\ s <> ".."%string.

(** The elements joined by single slashes. *)
Fixpoint join_path (segs : list string) : string :=
  match segs with
  | [] => ""
  | [s] => s
  | s :: rest => String.append s (String.append "/" (join_path rest))
  end.

Arguments encodeMeta : simpl never.
Arguments decodeMeta : simpl never.
Arguments Put : simpl never.
Arguments saveFile : simpl never.
Arguments loadFile : simpl never.
Arguments Buffer_Read : simpl never.

(** * Properties *)

(** ** Fixed-width integers *)

Lemma int64_of_uint64_mod (z : Z) :
  is_int64 z -> int64_of_uint64 (z mod 2 ^ 64) = z.
Proof.
  unfold is_int64, int64_of_uint64. intros Hz.
  destruct (Z.ltb_spec (z mod 2 ^ 64) (2 ^ 63)) as [Hlt | Hge].
  - destruct (Z.neg_nonneg_cases z) as [Hneg | Hpos].
    + replace (z mod 2 ^ 64) with (z + 2 ^ 64) in Hlt; [lia |].
      apply Z.mod_unique with (q := -1); lia.
    + apply Z.mod_small. lia.
  - destruct (Z.neg_nonneg_cases z) as [Hneg | Hpos].
    + replace (z mod 2 ^ 64) with (z + 2 ^ 64); [lia |].
      apply Z.mod_unique with (q := -1); lia.
    + rewrite Z.mod_small in Hge by lia. lia.
Qed.

Lemma wrap64_id (z : Z) : is_int64 z -> wrap64 z = z.
Proof. apply int64_of_uint64_mod. Qed.

(** ** Metadata codec *)

Lemma encodeMeta_unfold (m : fileMeta) :
  encodeMeta m =
  le_split 4 (Mode m) ++ le_split 8 (Size m) ++ le_split 8 (ModTime m)
  ++ le_split 1 (bool_to_Z (IsDir m)).
Proof.
  unfold encodeMeta, binary_Write. cbn [app]. by rewrite <- !app_assoc.
Qed.

Lemma length_encodeMeta (m : fileMeta) : length (encodeMeta m) = metaLen.
Proof.
  rewrite encodeMeta_unfold, !length_app, !length_le_split. reflexivity.
Qed.

Lemma binary_Read_le_split (width : nat) (v : Z) (rest : list byte) :
  binary_Read (le_split width v ++ rest) width
  = (Some (v mod 2 ^ (Z.of_nat width * 8)), rest).
Proof.
  unfold binary_Read.
  rewrite decide_True by (rewrite length_app, length_le_split; lia).
  rewrite take_app_length' by (by rewrite length_le_split).
  rewrite drop_app_length' by (by rewrite length_le_split).
  by rewrite le_combine_split.
Qed.

Lemma bool_to_Z_decode (b : bool) :
  negb (bool_to_Z b mod 2 ^ (Z.of_nat 1 * 8) =? 0) = b.
Proof. by destruct b. Qed.

(** Decoding reads the header only: the payload behind it is ignored. *)
Lemma decodeMeta_encodeMeta_app (m : fileMeta) (data : list byte) :
  is_uint32 (Mode m) -> is_int64 (Size m) -> is_int64 (ModTime m) ->
  decodeMeta (encodeMeta m ++ data) = m.
Proof.
  intros Hmode Hsize Htime.
  rewrite encodeMeta_unfold, <- !app_assoc. unfold decodeMeta.
  rewrite !binary_Read_le_split. cbn [default fmap option_fmap option_map].
  rewrite bool_to_Z_decode.
  change (Z.of_nat 8 * 8) with 64. change (Z.of_nat 4 * 8) with 32.
  rewrite !int64_of_uint64_mod by done.
  rewrite Z.mod_small by done.
  by destruct m.
Qed.

(** The size field alone survives whatever the other fields hold. *)
Lemma decodeMeta_encodeMeta_Size (m : fileMeta) (data : list byte) :
  is_int64 (Size m) -> Size (decodeMeta (encodeMeta m ++ data)) = Size m.
Proof.
  intros Hsize.
  rewrite encodeMeta_unfold, <- !app_assoc. unfold decodeMeta.
  rewrite !binary_Read_le_split. cbn [default fmap option_fmap option_map Size].
  change (Z.of_nat 8 * 8) with 64.
  by rewrite int64_of_uint64_mod.
Qed.

Lemma decodeMeta_typed (v : list byte) : meta_typed (decodeMeta v).
Proof.
  assert (Hu : forall w (r : list byte),
    (w <= 8)%nat ->
    0 <= default 0 (fst (binary_Read r w)) < 2 ^ (Z.of_nat w * 8)).
  { intros w r Hw. unfold binary_Read. case_decide; cbn; [| lia].
    pose proof (le_combine_bound (take w r)) as Hb.
    rewrite length_take, Nat.min_l in Hb by lia.
    by rewrite Z.mul_comm. }
  assert (Hs : forall u, 0 <= u < 2 ^ 64 -> is_int64 (int64_of_uint64 u)).
  { intros u Hu'. unfold is_int64, int64_of_uint64.
    destruct (Z.ltb_spec u (2 ^ 63)); lia. }
  assert (Hs' : forall o : option Z,
    0 <= default 0 o < 2 ^ 64 -> is_int64 (default 0 (int64_of_uint64 <$> o))).
  { intros [u |] Ho; cbn in *; [by apply Hs | unfold is_int64; lia]. }
  unfold decodeMeta.
  destruct (binary_Read v 4) as [mode r1] eqn:E1.
  destruct (binary_Read r1 8) as [size r2] eqn:E2.
  destruct (binary_Read r2 8) as [mtime r3] eqn:E3.
  destruct (binary_Read r3 1) as [isdir r4] eqn:E4.
  unfold meta_typed; cbn [Mode Size ModTime].
  split; [| split].
  - specialize (Hu 4%nat v). rewrite E1 in Hu. apply Hu. lia.
  - apply Hs'. specialize (Hu 8%nat r1). rewrite E2 in Hu. apply Hu. lia.
  - apply Hs'. specialize (Hu 8%nat r2). rewrite E3 in Hu. apply Hu. lia.
Qed.

(** C8. Encoding a metadata record gives 21 bytes: the mode in bytes 0..3,
    the size in bytes 4..11 and the modification time in bytes 12..19, each
    little-endian (the signed fields in two's complement), and the
    directory flag as byte 20; decoding the encoding gives the record back. *)
Theorem encodeMeta_layout_roundtrip (m : fileMeta) :
  meta_typed m ->
  length (encodeMeta m) = 21%nat /\
  le_combine (take 4 (encodeMeta m)) = Mode m /\
  le_combine (take 8 (drop 4 (encodeMeta m))) = Size m mod 2 ^ 64 /\
  le_combine (take 8 (drop 12 (encodeMeta m))) = ModTime m mod 2 ^ 64 /\
  drop 20 (encodeMeta m) = [if IsDir m then Byte.x01 else Byte.x00] /\
  decodeMeta (encodeMeta m) = m.
Proof.
  intros (Hmode & Hsize & Htime).
  split; [apply length_encodeMeta |].
  repeat split.
  - rewrite encodeMeta_unfold, take_app_length' by (by rewrite length_le_split).
    rewrite le_combine_split. by apply Z.mod_small.
  - rewrite encodeMeta_unfold, drop_app_length' by (by rewrite length_le_split).
    rewrite take_app_length' by (by rewrite length_le_split).
    by rewrite le_combine_split.
  - rewrite encodeMeta_unfold, !app_assoc, <- (app_assoc _ _ (le_split 1 _)).
    rewrite drop_app_length' by (by rewrite length_app, !length_le_split).
    rewrite take_app_length' by (by rewrite length_le_split).
    by rewrite le_combine_split.
  - rewrite encodeMeta_unfold, !app_assoc.
    rewrite drop_app_length' by (by rewrite !length_app, !length_le_split).
    by destruct (IsDir m).
  - rewrite <- (app_nil_r (encodeMeta m)). by apply decodeMeta_encodeMeta_app.
Qed.

Lemma encodeMeta_layout_roundtrip_witness :
  let m := {| Mode := 438; Size := 15; ModTime := -7; IsDir := true |} in
  length (encodeMeta m) = 21%nat /\ decodeMeta (encodeMeta m) = m.
Proof.
  intros m.
  assert (Hm : meta_typed m) by (unfold meta_typed, is_uint32, is_int64; cbn; lia).
  destruct (encodeMeta_layout_roundtrip m Hm) as (H1 & _ & _ & _ & _ & H2).
  split; assumption.
Defined.

(** ** The backend and the two store primitives *)

Lemma Put_inv (b b' : bucket) (k : string) (v : list byte) (e : option error) :
  Put b k v = (e, b') ->
  (e = None /\ b' = <[k := v]> b /\ valid_key k
   /\ Z.of_nat (length v) <= MaxValueSize)
  \/ (e <> None /\ b' = b).
Proof.
  unfold Put, valid_key.
  destruct (Nat.eqb_spec (String.length k) 0);
    [intros [= <- <-]; by right |].
  destruct (Z.ltb_spec MaxKeySize (Z.of_nat (String.length k)));
    [intros [= <- <-]; by right |].
  destruct (Z.ltb_spec MaxValueSize (Z.of_nat (length v)));
    [intros [= <- <-]; by right |].
  intros [= <- <-]. left. repeat split; [lia | done | done].
Qed.

Lemma Put_accepts (b : bucket) (k : string) (v : list byte) :
  valid_key k -> Z.of_nat (length v) <= MaxValueSize ->
  Put b k v = (None, <[k := v]> b).
Proof.
  unfold Put, valid_key. intros [Hk1 Hk2] Hv.
  destruct (Nat.eqb_spec (String.length k) 0); [lia |].
  destruct (Z.ltb_spec MaxKeySize (Z.of_nat (String.length k))); [lia |].
  destruct (Z.ltb_spec MaxValueSize (Z.of_nat (length v))); [lia | done].
Qed.

Lemma saveFile_inv (fs fs' : BBolt) (k : string) (data : list byte)
    (m : fileMeta) (e : option error) :
  saveFile fs k data m = (e, fs') ->
  (e = None
   /\ fs' = {| files := <[k := encodeMeta m ++ data]> (files fs);
               dirs := dirs fs |}
   /\ valid_key k
   /\ Z.of_nat (length (encodeMeta m ++ data)) <= MaxValueSize)
  \/ (e <> None /\ fs' = fs).
Proof.
  unfold saveFile.
  destruct (Put (files fs) k (encodeMeta m ++ data)) as [e0 b0] eqn:HP.
  intros [= <- <-].
  apply Put_inv in HP as [(-> & -> & Hk & Hv) | (He & ->)].
  - by left.
  - right. split; [done |]. by destruct fs.
Qed.

Lemma saveFile_accepts (fs : BBolt) (k : string) (data : list byte)
    (m : fileMeta) :
  valid_key k ->
  Z.of_nat (length (encodeMeta m ++ data)) <= MaxValueSize ->
  saveFile fs k data m
  = (None, {| files := <[k := encodeMeta m ++ data]> (files fs);
              dirs := dirs fs |}).
Proof. intros Hk Hv. unfold saveFile. by rewrite Put_accepts. Qed.

Lemma drop_metaLen_encodeMeta (m : fileMeta) (data : list byte) :
  drop metaLen (encodeMeta m ++ data) = data.
Proof. apply drop_app_length'. by rewrite length_encodeMeta. Qed.

(** What [loadFile] finds behind an entry written by [saveFile]. *)
Lemma loadFile_saved (fs : BBolt) (k : string) (m : fileMeta)
    (data : list byte) :
  files fs !! k = Some (encodeMeta m ++ data) ->
  loadFile fs k = Returns (data, decodeMeta (encodeMeta m ++ data), None).
Proof.
  intros Hk. unfold loadFile, Get. rewrite Hk.
  rewrite decide_True by (rewrite length_app, length_encodeMeta; lia).
  by rewrite drop_metaLen_encodeMeta.
Qed.

Lemma loadFile_missing (fs : BBolt) (k : string) :
  files fs !! k = None ->
  loadFile fs k = Returns ([], zeroMeta, Some ErrNotExist).
Proof. intros Hk. unfold loadFile, Get. by rewrite Hk. Qed.

Lemma loadFile_entry (fs : BBolt) (k : string) (v : list byte) :
  files fs !! k = Some v -> (metaLen <= length v)%nat ->
  loadFile fs k = Returns (drop metaLen v, decodeMeta v, None).
Proof.
  intros Hk Hv. unfold loadFile, Get. rewrite Hk. by rewrite decide_True.
Qed.

(** ** bytes.Buffer *)

Lemma Len_Bytes (b : Buffer) : Len b = length (Bytes b).
Proof. unfold Len, Bytes. by rewrite length_drop. Qed.

Lemma Bytes_NewBuffer (data : list byte) : Bytes (NewBuffer data) = data.
Proof. reflexivity. Qed.

Lemma Bytes_Buffer_Write (b : Buffer) (p : list byte) :
  (off b <= length (buf b))%nat ->
  Bytes (snd (Buffer_Write b p)) = Bytes b ++ p.
Proof. intros Hoff. unfold Bytes; cbn. by rewrite drop_app_le. Qed.

(** A read with room for everything returns all the unread bytes. *)
Lemma Buffer_Read_all (b : Buffer) (n : nat) :
  (length (Bytes b) <= n)%nat ->
  fst (fst (Buffer_Read b n)) = Bytes b.
Proof.
  intros Hn. unfold Buffer_Read. case_decide as Hempty; cbn.
  - unfold Bytes. by rewrite drop_ge.
  - by rewrite take_ge.
Qed.

(** ** Create, write, close, reopen, read *)

Lemma Create_inv (fs fs1 : BBolt) (p : string) (now : Z) (h : File) :
  Create fs p now = (Ok h, fs1) ->
  h = AFile {| name := p;
               meta := {| Mode := 438; Size := 0; ModTime := now;
                          IsDir := false |};
               buffer := {| buf := []; off := 0 |};
               offset := 0; closed := false |}
  /\ valid_key p.
Proof.
  unfold Create.
  destruct (saveFile fs p _ _) as [[e |] fs'] eqn:HS; [done |].
  intros [= <- <-].
  apply saveFile_inv in HS as [(_ & _ & Hk & _) | (He & _)]; done.
Qed.

Lemma Create_valid_key (fs : BBolt) (p : string) (now : Z) :
  valid_key p -> exists h fs1, Create fs p now = (Ok h, fs1).
Proof.
  intros Hk. unfold Create. rewrite saveFile_accepts; [eauto | done |].
  rewrite length_app, length_encodeMeta. cbn. unfold MaxValueSize. lia.
Qed.

(** C2. On any store, when [Create] of a path succeeds and a write of [w]
    through the returned handle succeeds, then after closing the handle
    [Open] of the same path returns a handle whose read, into a
    destination with room for [w], returns exactly the bytes [w]. *)
Theorem create_write_close_open_read (fs fs1 fs2 : BBolt) (p : string)
    (w : list byte) (now1 now2 : Z) (n k : nat) (h h2 h3 : File) :
  Create fs p now1 = (Ok h, fs1) ->
  File_Write h w now2 fs1 = Returns ((k, None), h2, fs2) ->
  File_Close h2 = (None, h3) ->
  (length w <= n)%nat ->
  k = length w /\
  exists g e g',
    Open fs2 p = Returns (Ok g) /\
    File_Read g n fs2 = Returns ((w, e), g', fs2).
Proof.
  intros HC HW _ Hn.
  apply Create_inv in HC as [-> _].
  cbn in HW. rewrite drop_0 in HW.
  destruct (saveFile _ _ _ _) as [e1 fs'] eqn:HS.
  injection HW as <- -> <- <-.
  split; [done |].
  apply saveFile_inv in HS as [(_ & -> & _ & _) | (He & _)]; [| done].
  destruct (Buffer_Read (NewBuffer w) n) as [[out e] b] eqn:HR.
  pose proof (Buffer_Read_all (NewBuffer w) n Hn) as Hall.
  rewrite HR, Bytes_NewBuffer in Hall. cbn in Hall. subst out.
  unfold Open. erewrite loadFile_saved by (cbn; apply lookup_insert_eq).
  eexists (AFile _), e, _. split; [done |].
  cbn. by rewrite HR.
Qed.

Lemma create_write_close_open_read_witness :
  let w := list_byte_of_string "hello, bboltfs!" in
  length w = 15%nat /\
  exists fs2 g e g',
    Open fs2 "test.txt" = Returns (Ok g) /\
    File_Read g 100 fs2 = Returns ((w, e), g', fs2).
Proof.
  intros w. split; [reflexivity |].
  eexists. eapply proj2.
  eapply (create_write_close_open_read New _ _ "test.txt" w 1000 2000 100).
  - vm_compute. reflexivity.
  - vm_compute. reflexivity.
  - reflexivity.
  - vm_compute. lia.
Defined.

(** ** Create and write succeed on what the backend accepts *)

Lemma bboltFile_Write_accepts (f : bboltFile) (w : list byte) (now : Z)
    (fs : BBolt) :
  closed f = false -> valid_key (name f) ->
  Z.of_nat (metaLen + length (Bytes (buffer f) ++ w)) <= MaxValueSize ->
  Buffer_ok (buffer f) ->
  exists f' fs',
    bboltFile_Write f w now fs = ((length w, None), f', fs') /\
    Bytes (buffer f') = Bytes (buffer f) ++ w /\
    files fs' !! name f = Some (encodeMeta (meta f') ++ Bytes (buffer f')).
Proof.
  intros Hc Hk Hfit Hok. unfold bboltFile_Write. rewrite Hc.
  cbn [Buffer_Write set_buffer touch buffer name meta].
  pose proof (Bytes_Buffer_Write (buffer f) w Hok) as HB. cbn [Buffer_Write snd] in HB.
  rewrite saveFile_accepts;
    [| done | rewrite length_app, length_encodeMeta, HB; lia].
  eexists _, _. split; [reflexivity |]. cbn [buffer meta files name].
  split; [done |]. apply lookup_insert_eq.
Qed.

(** For every key the backend accepts and every payload within its value
    limit, the whole sequence runs without error and the read returns the
    payload. *)
Lemma create_write_open_read_total (fs : BBolt) (p : string) (w : list byte)
    (now1 now2 : Z) (n : nat) :
  valid_key p ->
  Z.of_nat (metaLen + length w) <= MaxValueSize ->
  (length w <= n)%nat ->
  exists f fs1 f2 fs2 g e g',
    Create fs p now1 = (Ok (AFile f), fs1) /\
    bboltFile_Write f w now2 fs1 = ((length w, None), f2, fs2) /\
    Open fs2 p = Returns (Ok (AFile g)) /\
    bboltFile_Read g n = ((w, e), g').
Proof.
  intros Hk Hfit Hn.
  destruct (Create_valid_key fs p now1 Hk) as (h & fs1 & HC).
  pose proof HC as HC'. apply Create_inv in HC' as [-> _].
  destruct (bboltFile_Write_accepts
              {| name := p; meta := mkMeta 438 0 now1 false;
                 buffer := {| buf := []; off := 0 |};
                 offset := 0; closed := false |} w now2 fs1)
    as (f2 & fs2 & HW & HB & Hstored); [done | done | done | |].
  { unfold Buffer_ok; cbn. lia. }
  cbn [name] in Hstored. change (Bytes {| buf := []; off := 0 |}) with (@nil byte) in HB.
  rewrite app_nil_l in HB. rewrite HB in Hstored.
  destruct (Buffer_Read (NewBuffer w) n) as [[out e] b] eqn:HR.
  pose proof (Buffer_Read_all (NewBuffer w) n Hn) as Hall.
  rewrite HR, Bytes_NewBuffer in Hall. cbn in Hall. subst out.
  eexists _, fs1, f2, fs2, _, e, _.
  split; [exact HC |]. split; [exact HW |].
  unfold Open. rewrite (loadFile_saved fs2 p _ _ Hstored).
  split; [reflexivity |].
  unfold bboltFile_Read. cbn [closed buffer]. by rewrite HR.
Qed.

(** ** Directory handles *)

(** C4 (as the code has it). Through a directory handle, write, writeAt,
    writeString and truncate are rejected with the invalid-operation error
    [os.ErrInvalid]; seek, read and readAt return zero with the end-of-data
    error [io.EOF]. None of the seven changes the handle or the store. *)
Theorem dir_handle_operations (d : bboltDirFile) (fs : BBolt)
    (p : list byte) (s : string) (n : nat) (off size offset whence now : Z) :
  File_Write (ADir d) p now fs
    = Returns ((0%nat, Some ErrInvalid), ADir d, fs) /\
  File_WriteAt (ADir d) p off now fs
    = Returns ((0%nat, Some ErrInvalid), ADir d, fs) /\
  File_WriteString (ADir d) s now fs
    = Returns ((0%nat, Some ErrInvalid), ADir d, fs) /\
  File_Truncate (ADir d) size now fs
    = Returns (Some ErrInvalid, ADir d, fs) /\
  File_Seek (ADir d) offset whence fs
    = Returns ((0, Some EOF), ADir d, fs) /\
  File_Read (ADir d) n fs
    = Returns (([], Some EOF), ADir d, fs) /\
  File_ReadAt (ADir d) n off fs
    = Returns (([], Some EOF), ADir d, fs).
Proof. repeat split. Qed.

(** C4 as stated fails: a read through the handle [Open] returns for a
    directory made by [Mkdir] ends with [io.EOF], not with
    [os.ErrInvalid]. *)
Lemma dir_handle_read_is_eof :
  let st := snd (Mkdir New "dir" 493 1000) in
  exists d,
    Open st "dir" = Returns (Ok (ADir d)) /\
    File_Read (ADir d) 1 st = Returns (([], Some EOF), ADir d, st) /\
    ~ (exists r h st',
         File_Read (ADir d) 1 st = Returns ((r, Some ErrInvalid), h, st')).
Proof.
  intros st. eexists. split; [vm_compute; reflexivity |].
  split; [reflexivity |].
  intros (r & h & st' & H). discriminate H.
Qed.

(** ** Seek *)

(** What [Seek] does on an open handle, case by case. *)
Lemma bboltFile_Seek_start (f : bboltFile) (offset : Z) :
  closed f = false ->
  bboltFile_Seek f offset SeekStart
  = if offset <? 0 then ((0, Some ErrNegativePosition), f)
    else ((offset, None), set_offset offset f).
Proof. intros Hc. unfold bboltFile_Seek. by rewrite Hc. Qed.

Lemma bboltFile_Seek_end (f : bboltFile) (offset : Z) :
  closed f = false ->
  let abs := wrap64 (Z.of_nat (length (Bytes (buffer f))) + offset) in
  bboltFile_Seek f offset SeekEnd
  = if abs <? 0 then ((0, Some ErrNegativePosition), f)
    else ((abs, None), set_offset abs f).
Proof. intros Hc. unfold bboltFile_Seek. by rewrite Hc, Len_Bytes. Qed.

Lemma bboltFile_Seek_invalid_whence (f : bboltFile) (offset whence : Z) :
  closed f = false ->
  whence <> SeekStart -> whence <> SeekCurrent -> whence <> SeekEnd ->
  bboltFile_Seek f offset whence = ((0, Some ErrInvalidWhence), f).
Proof.
  intros Hc H0 H1 H2. unfold bboltFile_Seek. rewrite Hc.
  destruct (Z.eqb_spec whence SeekStart); [done |].
  destruct (Z.eqb_spec whence SeekCurrent); [done |].
  by destruct (Z.eqb_spec whence SeekEnd).
Qed.

(** [Seek] never touches the buffer, the metadata or the closed flag. *)
Lemma bboltFile_Seek_handle (f f' : bboltFile) (o whence : Z)
    (r : Z * option error) :
  bboltFile_Seek f o whence = (r, f') -> f' = set_offset (offset f') f.
Proof.
  unfold bboltFile_Seek. destruct (closed f) eqn:Hc.
  - intros [= <- <-]. by destruct f.
  - destruct (if whence =? SeekStart then _ else _) as [abs |].
    + destruct (abs <? 0); intros [= <- <-]; [by destruct f | done].
    + intros [= <- <-]. by destruct f.
Qed.

(** With [io.SeekCurrent] the source computes the same position as with
    [io.SeekEnd]: the recorded position plays no part. *)
Lemma bboltFile_Seek_current_is_end (f : bboltFile) (offset : Z) :
  bboltFile_Seek f offset SeekCurrent = bboltFile_Seek f offset SeekEnd.
Proof. reflexivity. Qed.

(** C3 at a failing input. A handle on the three bytes "abc" with nothing
    read: from the recorded position 0, [Seek(1, io.SeekCurrent)] returns 4
    (the length plus one), and it does so from the recorded position 1 as
    well, where measuring from the current position gives 1 and 2. *)
Theorem Seek_current_measures_from_end :
  let f := {| name := "a.txt"; meta := mkMeta 438 3 0 false;
              buffer := NewBuffer (list_byte_of_string "abc");
              offset := 0; closed := false |} in
  bboltFile_Seek f 1 SeekCurrent = ((4, None), set_offset 4 f) /\
  bboltFile_Seek f 1 SeekStart = ((1, None), set_offset 1 f) /\
  bboltFile_Seek (set_offset 1 f) 1 SeekCurrent = ((4, None), set_offset 4 f).
Proof. repeat split. Qed.

(** ** The recorded position *)

Lemma bboltFile_Seek_ok_inv (f f' : bboltFile) (o whence abs : Z) :
  bboltFile_Seek f o whence = ((abs, None), f') ->
  closed f = false /\ f' = set_offset abs f.
Proof.
  unfold bboltFile_Seek. destruct (closed f); [done |].
  destruct (if whence =? SeekStart then _ else _) as [a |]; [| done].
  destruct (a <? 0); [done |]. by intros [= <- <-].
Qed.

(** Every handle operation commutes with a change of the recorded
    position: none of them reads it. *)
Lemma bboltFile_Read_set_offset (o : Z) (f : bboltFile) (n : nat) :
  bboltFile_Read (set_offset o f) n
  = (fst (bboltFile_Read f n), set_offset o (snd (bboltFile_Read f n))).
Proof.
  unfold bboltFile_Read. cbn [set_offset closed buffer].
  destruct (closed f); [done |]. by destruct (Buffer_Read (buffer f) n).
Qed.

Lemma bboltFile_Write_set_offset (o : Z) (f : bboltFile) (p : list byte)
    (now : Z) (fs : BBolt) :
  bboltFile_Write (set_offset o f) p now fs
  = let '(r, g, fs') := bboltFile_Write f p now fs in
    (r, set_offset o g, fs').
Proof.
  unfold bboltFile_Write. cbn [set_offset closed buffer].
  destruct (closed f); [done |]. cbn.
  by destruct (saveFile fs (name f) _ _).
Qed.

Lemma bboltFile_ReadAt_set_offset (o : Z) (f : bboltFile) (n : nat) (off : Z) :
  bboltFile_ReadAt (set_offset o f) n off
  = outcome_map (fun '(r, g) => (r, set_offset o g)) (bboltFile_ReadAt f n off).
Proof.
  unfold bboltFile_ReadAt. cbn [set_offset closed buffer].
  destruct (closed f); [done |].
  destruct (_ <=? off); [done |]. destruct (off <? 0); [done |].
  by destruct (_ =? _)%nat.
Qed.

Lemma bboltFile_WriteAt_set_offset (o : Z) (f : bboltFile) (p : list byte)
    (off now : Z) (fs : BBolt) :
  bboltFile_WriteAt (set_offset o f) p off now fs
  = outcome_map (fun '(r, g, fs') => (r, set_offset o g, fs'))
      (bboltFile_WriteAt f p off now fs).
Proof.
  destruct f as [nm m b o0 c].
  unfold bboltFile_WriteAt, set_offset, set_buffer, touch.
  cbn [closed buffer name meta offset].
  destruct c; [done |].
  destruct (Z.of_nat (length (Bytes b)) <? off);
    cbn [closed buffer name meta offset];
    (destruct ((off <? 0) || _); [done |]); cbn [outcome_map];
    by destruct (saveFile fs nm _ _).
Qed.

Lemma bboltFile_Truncate_set_offset (o : Z) (f : bboltFile) (size now : Z)
    (fs : BBolt) :
  bboltFile_Truncate (set_offset o f) size now fs
  = outcome_map (fun '(r, g, fs') => (r, set_offset o g, fs'))
      (bboltFile_Truncate f size now fs).
Proof.
  unfold bboltFile_Truncate. cbn [set_offset closed buffer].
  destruct (closed f); [done |].
  destruct (if size <? _ then _ else _) as [b |]; [| done]. cbn.
  by destruct (saveFile fs (name f) _ _).
Qed.

(** C10. After a successful seek, a read returns what it returns without
    the seek, taken from the buffer's own cursor, and a write returns what
    it returns without the seek, appends to the buffer and leaves the same
    store (under the same clock reading); the handles left behind differ
    in the recorded position only. *)
Theorem seek_position_never_consulted (f f' : bboltFile) (o whence abs : Z) :
  bboltFile_Seek f o whence = ((abs, None), f') ->
  (forall n,
     bboltFile_Read f' n
     = (fst (bboltFile_Read f n), set_offset abs (snd (bboltFile_Read f n)))
     /\ fst (bboltFile_Read f' n) = fst (Buffer_Read (buffer f) n)) /\
  (forall p now fs,
     bboltFile_Write f' p now fs
     = (let '(r, g, fs') := bboltFile_Write f p now fs in
        (r, set_offset abs g, fs'))
     /\ buffer (snd (fst (bboltFile_Write f' p now fs)))
        = snd (Buffer_Write (buffer f) p)).
Proof.
  intros HS. apply bboltFile_Seek_ok_inv in HS as [Hc ->].
  split.
  - intros n. rewrite bboltFile_Read_set_offset. split; [done |].
    cbn [fst]. unfold bboltFile_Read. rewrite Hc.
    by destruct (Buffer_Read (buffer f) n).
  - intros p now fs. rewrite bboltFile_Write_set_offset. split; [done |].
    unfold bboltFile_Write. rewrite Hc. cbn.
    by destruct (saveFile fs (name f) _ _).
Qed.

Lemma seek_position_never_consulted_witness :
  let f := {| name := "a.txt"; meta := mkMeta 438 3 0 false;
              buffer := NewBuffer (list_byte_of_string "abc");
              offset := 0; closed := false |} in
  fst (bboltFile_Read (set_offset 2 f) 2) = fst (bboltFile_Read f 2).
Proof.
  intros f.
  destruct (seek_position_never_consulted f (set_offset 2 f) 2 SeekStart 2)
    as [HR _]; [reflexivity |].
  destruct (HR 2%nat) as [-> _]. reflexivity.
Defined.

(** ** WriteAt *)

Lemma copy_fst (dst src : list byte) :
  fst (copy dst src)
  = take (length dst) src ++ drop (length src) dst.
Proof.
  unfold copy; cbn [fst].
  destruct (Nat.le_ge_cases (length dst) (length src)) as [H | H].
  - rewrite Nat.min_l by done. f_equal.
    rewrite !drop_ge by lia. done.
  - rewrite Nat.min_r by done. rewrite !take_ge by lia. done.
Qed.

Lemma copy_make_all (src : list byte) :
  fst (copy (make (length src)) src) = src.
Proof.
  rewrite copy_fst. unfold make. rewrite length_replicate.
  rewrite take_ge, drop_ge by (rewrite ?length_replicate; lia).
  apply app_nil_r.
Qed.

Lemma Len_NewBuffer (data : list byte) : Len (NewBuffer data) = length data.
Proof. unfold Len, NewBuffer; cbn. lia. Qed.

Lemma bboltFile_WriteAt_eq (f : bboltFile) (p : list byte) (pos now : Z)
    (fs : BBolt) :
  closed f = false -> Buffer_ok (buffer f) -> 0 <= pos ->
  let tmp := WriteAt_bytes (Bytes (buffer f)) p (Z.to_nat pos) in
  let f' := touch (Z.of_nat (length tmp)) now (set_buffer (NewBuffer tmp) f) in
  bboltFile_WriteAt f p pos now fs
  = Returns ((length p, fst (saveFile fs (name f) tmp (meta f'))), f',
             snd (saveFile fs (name f) tmp (meta f'))).
Proof.
  intros Hc Hok Hpos. unfold bboltFile_WriteAt. rewrite Hc.
  set (old := Bytes (buffer f)).
  assert (Hbase :
    Bytes (buffer (if Z.of_nat (length old) <? pos
                   then set_buffer
                          (snd (Buffer_Write (buffer f)
                             (make (Z.to_nat (pos - Z.of_nat (length old))))))
                          f
                   else f))
    = old ++ make (Z.to_nat pos - length old)).
  { destruct (Z.ltb_spec (Z.of_nat (length old)) pos) as [Hlt | Hge].
    - cbn [set_buffer buffer]. rewrite Bytes_Buffer_Write by done.
      fold old. do 2 f_equal. lia.
    - replace (Z.to_nat pos - length old)%nat with 0%nat by lia.
      by rewrite app_nil_r. }
  rewrite Hbase, copy_make_all.
  set (base := old ++ make (Z.to_nat pos - length old)).
  assert (Hlen : (Z.to_nat pos <= length base)%nat).
  { unfold base, make. rewrite length_app, length_replicate. lia. }
  destruct (Z.ltb_spec pos 0) as [? | _]; [lia |].
  destruct (Z.ltb_spec (Z.of_nat (length base)) pos) as [? | _]; [lia |].
  cbn [orb]. clear Hbase.
  set (g := if Z.of_nat (length old) <? pos then _ else f).
  assert (Hname : name g = name f) by (unfold g; by destruct (_ <? pos)).
  assert (Hmeta : meta g = meta f) by (unfold g; by destruct (_ <? pos)).
  assert (Hoffset : offset g = offset f) by (unfold g; by destruct (_ <? pos)).
  assert (Hclosed : closed g = closed f) by (unfold g; by destruct (_ <? pos)).
  unfold touch, set_buffer. cbn [name meta buffer offset closed].
  rewrite Hname, Hmeta, Hoffset, Hclosed, Len_NewBuffer, Bytes_NewBuffer.
  by destruct (saveFile fs (name f) _ _).
Qed.

(** The buffer ends where the longer of the old contents and the padding
    ends: [p] never extends it. *)
Lemma length_WriteAt_bytes (old p : list byte) (o : nat) :
  length (WriteAt_bytes old p o) = Nat.max (length old) o.
Proof.
  unfold WriteAt_bytes. rewrite copy_fst.
  rewrite !length_app, !length_take, !length_drop, !length_app.
  unfold make. rewrite !length_replicate. lia.
Qed.

(** Inside the old contents the write is the overwrite one expects. *)
Lemma WriteAt_bytes_inside (old p : list byte) (o : nat) :
  (o + length p <= length old)%nat ->
  WriteAt_bytes old p o = take o old ++ p ++ drop (o + length p) old.
Proof.
  intros Hin. unfold WriteAt_bytes.
  replace (o - length old)%nat with 0%nat by lia.
  cbn [make replicate]. rewrite app_nil_r, copy_fst.
  rewrite (take_ge p) by (rewrite length_drop; lia).
  by rewrite drop_drop.
Qed.

(** C1 at a failing input. On the handle [Create] returns (an empty
    buffer), [WriteAt("abc", 0)] reports three bytes written and no error,
    yet the buffer stays empty and the stored entry has an empty payload
    and size 0. On a handle holding "ab", [WriteAt("xy", 5)] pads to five
    bytes and writes nothing of "xy". *)
Theorem WriteAt_drops_bytes_past_end :
  let abc := list_byte_of_string "abc" in
  (exists f fs1 f' fs2,
     Create New "a.txt" 1000 = (Ok (AFile f), fs1) /\
     bboltFile_WriteAt f abc 0 2000 fs1 = Returns ((3%nat, None), f', fs2) /\
     Bytes (buffer f') = [] /\
     Size (meta f') = 0 /\
     loadFile fs2 "a.txt" = Returns ([], mkMeta 438 0 2000 false, None)) /\
  (let f := {| name := "b.txt"; meta := mkMeta 438 2 0 false;
               buffer := NewBuffer (list_byte_of_string "ab");
               offset := 0; closed := false |} in
   exists f' fs2,
     bboltFile_WriteAt f (list_byte_of_string "xy") 5 2000 New
     = Returns ((2%nat, None), f', fs2) /\
     Bytes (buffer f')
     = list_byte_of_string "ab" ++ [Byte.x00; Byte.x00; Byte.x00]).
Proof.
  intros abc. split.
  - eexists _, _, _, _. split; [vm_compute; reflexivity |].
    split; [vm_compute; reflexivity |].
    repeat split; vm_compute; reflexivity.
  - intros f. eexists _, _. split; vm_compute; reflexivity.
Qed.

(** ** ReadAt *)

(** [ReadAt] on an open handle, in terms of the unread bytes of the
    buffer. The handle comes back as it was. *)
Lemma bboltFile_ReadAt_unread (f : bboltFile) (n : nat) (pos : Z) :
  closed f = false -> 0 <= pos ->
  let unread := Bytes (buffer f) in
  exists e,
    bboltFile_ReadAt f n pos
    = Returns ((take n (drop (Z.to_nat pos) unread), e), f) /\
    (e = Some EOF <-> Z.of_nat (length unread) <= pos \/ n = 0%nat) /\
    (e <> Some EOF -> e = None).
Proof.
  intros Hc Hpos unread. unfold bboltFile_ReadAt. rewrite Hc. fold unread.
  destruct (Z.leb_spec (Z.of_nat (length unread)) pos) as [Hge | Hlt].
  - exists (Some EOF). rewrite drop_ge, take_nil by lia.
    split; [done |]. split; [tauto | done].
  - destruct (Z.ltb_spec pos 0) as [? | _]; [lia |].
    destruct (Nat.eqb_spec (length (take n (drop (Z.to_nat pos) unread))) 0)
      as [H0 | Hn0].
    + exists (Some EOF). apply nil_length_inv in H0 as Hnil. rewrite Hnil.
      split; [done |]. split; [| done]. split; [intros _ | done].
      rewrite length_take, length_drop in H0. lia.
    + exists None. split; [done |]. split; [| done].
      split; [done |]. intros [? | ->]; [lia |]. by rewrite take_0 in Hn0.
Qed.

(** C5 (amended). On an open handle none of whose bytes a sequential read
    has consumed, [ReadAt] with a non-negative offset returns the bytes of
    the buffer from that offset on, as many as the destination holds, and
    leaves the handle, its read cursor included, as it was; the error is
    [io.EOF] exactly when the offset is at or beyond the buffer's length or
    the destination is empty, and nil otherwise. *)
Theorem ReadAt_snapshot (f : bboltFile) (n : nat) (pos : Z) :
  closed f = false -> off (buffer f) = 0%nat -> 0 <= pos ->
  let snapshot := buf (buffer f) in
  exists e,
    bboltFile_ReadAt f n pos
    = Returns ((take n (drop (Z.to_nat pos) snapshot), e), f) /\
    (e = Some EOF <-> Z.of_nat (length snapshot) <= pos \/ n = 0%nat) /\
    (e <> Some EOF -> e = None).
Proof.
  intros Hc Hoff Hpos.
  pose proof (bboltFile_ReadAt_unread f n pos Hc Hpos) as H.
  unfold Bytes in H. by rewrite Hoff, drop_0 in H.
Qed.

Lemma ReadAt_snapshot_witness :
  let f := {| name := "a.txt"; meta := mkMeta 438 6 0 false;
              buffer := NewBuffer (list_byte_of_string "abcdef");
              offset := 0; closed := false |} in
  exists e,
    bboltFile_ReadAt f 3 2 = Returns ((list_byte_of_string "cde", e), f).
Proof.
  intros f.
  destruct (ReadAt_snapshot f 3 2) as (e & H & _);
    [reflexivity | reflexivity | lia |].
  exists e. exact H.
Defined.

(** C5 as stated fails twice on a handle holding "abcdef": a [ReadAt] into
    an empty destination at offset 0 ends with [io.EOF] although the
    offset is inside the buffer; and after a sequential read of two bytes
    a [ReadAt] at offset 0 returns "cde" where it returned "abc" before. *)
Lemma ReadAt_eof_inside_and_shifted :
  let f := {| name := "a.txt"; meta := mkMeta 438 6 0 false;
              buffer := NewBuffer (list_byte_of_string "abcdef");
              offset := 0; closed := false |} in
  let f2 := snd (bboltFile_Read f 2) in
  (bboltFile_ReadAt f 0 0 = Returns (([], Some EOF), f) /\
   0 < Z.of_nat (length (Bytes (buffer f)))) /\
  (bboltFile_ReadAt f 3 0 = Returns ((list_byte_of_string "abc", None), f) /\
   bboltFile_ReadAt f2 3 0
   = Returns ((list_byte_of_string "cde", None), f2)).
Proof. intros f f2. repeat split. Qed.

(** ** The invariant of the file collection *)

Lemma files_inv_New : files_inv New.
Proof. intros k v Hk. cbn in Hk. by rewrite lookup_empty in Hk. Qed.

(** A header and payload the backend accepted form a good entry as soon
    as the size field is the length of the payload. *)
Lemma entry_ok_encode (m : fileMeta) (data : list byte) :
  Size m = Z.of_nat (length data) ->
  Z.of_nat (length (encodeMeta m ++ data)) <= MaxValueSize ->
  entry_ok (encodeMeta m ++ data).
Proof.
  intros Hsize Hfit. unfold entry_ok.
  rewrite drop_metaLen_encodeMeta, length_app, length_encodeMeta.
  split; [lia |].
  rewrite decodeMeta_encodeMeta_Size; [done |].
  rewrite length_app in Hfit. unfold MaxValueSize in Hfit.
  unfold is_int64. rewrite Hsize. lia.
Qed.

Lemma saveFile_files_inv (fs fs' : BBolt) (k : string) (data : list byte)
    (m : fileMeta) (e : option error) :
  files_inv fs ->
  Size m = Z.of_nat (length data) ->
  saveFile fs k data m = (e, fs') ->
  files_inv fs'.
Proof.
  intros Hinv Hsize HS.
  apply saveFile_inv in HS as [(_ & -> & _ & Hfit) | (_ & ->)]; [| done].
  intros k' v'. cbn [files]. rewrite lookup_insert.
  case_decide; [| by apply Hinv].
  intros [= <-]. by apply entry_ok_encode.
Qed.

Lemma Remove_files_inv (fs : BBolt) (k : string) :
  files_inv fs -> files_inv (snd (Remove fs k)).
Proof.
  intros Hinv k' v'. cbn. unfold Delete. rewrite lookup_delete.
  case_decide; [done | by apply Hinv].
Qed.

(** Under the invariant [loadFile] never panics, and what it returns for a
    present key has a size field equal to the payload's length. *)
Lemma loadFile_files_inv (fs : BBolt) (k : string) :
  files_inv fs ->
  (files fs !! k = None /\
   loadFile fs k = Returns ([], zeroMeta, Some ErrNotExist))
  \/ (exists v, files fs !! k = Some v /\ entry_ok v /\
        loadFile fs k = Returns (drop metaLen v, decodeMeta v, None)).
Proof.
  intros Hinv. destruct (files fs !! k) as [v |] eqn:Hk.
  - right. exists v. pose proof (Hinv k v Hk) as Hv.
    split; [done |]. split; [done |]. apply loadFile_entry; [done | apply Hv].
  - left. split; [done |]. by apply loadFile_missing.
Qed.

Lemma Create_files_inv (fs : BBolt) (p : string) (now : Z) :
  files_inv fs -> files_inv (snd (Create fs p now)).
Proof.
  intros Hinv. unfold Create.
  destruct (saveFile fs p _ _) as [e fs'] eqn:HS.
  apply saveFile_files_inv in HS; [| done | done].
  by destruct e.
Qed.

Lemma bboltFile_Write_files_inv (f : bboltFile) (p : list byte) (now : Z)
    (fs : BBolt) :
  files_inv fs -> files_inv (snd (bboltFile_Write f p now fs)).
Proof.
  intros Hinv. unfold bboltFile_Write. destruct (closed f); [done |].
  cbn [Buffer_Write set_buffer touch buffer name meta].
  destruct (saveFile fs (name f) _ _) as [e fs'] eqn:HS.
  apply saveFile_files_inv in HS; [done | done |].
  cbn [Size]. by rewrite Len_Bytes.
Qed.

Lemma bboltFile_WriteAt_files_inv (f f' : bboltFile) (p : list byte)
    (pos now : Z) (fs fs' : BBolt) (r : nat * option error) :
  files_inv fs ->
  bboltFile_WriteAt f p pos now fs = Returns (r, f', fs') ->
  files_inv fs'.
Proof.
  intros Hinv. unfold bboltFile_WriteAt.
  destruct (closed f); [by intros [= <- <- <-] |].
  destruct ((pos <? 0) || _); [done |].
  set (g := touch _ now _).
  destruct (saveFile fs (name g) _ _) as [e fs0] eqn:HS.
  intros [= <- <- <-].
  apply saveFile_files_inv in HS; [done | done |].
  unfold g. cbn [touch meta Size buffer set_buffer]. by rewrite Len_Bytes.
Qed.

Lemma bboltFile_Truncate_files_inv (f f' : bboltFile) (size now : Z)
    (fs fs' : BBolt) (e : option error) :
  files_inv fs -> Buffer_ok (buffer f) ->
  bboltFile_Truncate f size now fs = Returns (e, f', fs') ->
  files_inv fs'.
Proof.
  intros Hinv Hok. unfold bboltFile_Truncate.
  destruct (closed f); [by intros [= <- <- <-] |].
  set (old := Bytes (buffer f)).
  destruct (Z.ltb_spec size (Z.of_nat (length old))) as [Hlt | Hge].
  - destruct (Z.ltb_spec size 0) as [? | Hpos]; [done |].
    cbn [set_buffer touch buffer name meta].
    destruct (saveFile fs (name f) _ _) as [e0 fs0] eqn:HS.
    intros [= <- <- <-].
    apply saveFile_files_inv in HS; [done | done |].
    cbn [Size]. rewrite Bytes_NewBuffer, length_take. lia.
  - destruct (Z.ltb_spec (Z.of_nat (length old)) size) as [Hpad | Heq];
      cbn [set_buffer touch buffer name meta];
      destruct (saveFile fs (name f) _ _) as [e0 fs0] eqn:HS;
      intros [= <- <- <-];
      (apply saveFile_files_inv in HS; [done | done |]); cbn [Size].
    + rewrite Bytes_Buffer_Write by done. fold old.
      unfold make. rewrite length_app, length_replicate. lia.
    + fold old. lia.
Qed.

Lemma Chmod_files_inv (fs : BBolt) (k : string) (mode : Z) :
  files_inv fs ->
  exists e fs', Chmod fs k mode = Returns (e, fs') /\ files_inv fs'.
Proof.
  intros Hinv. unfold Chmod.
  destruct (loadFile_files_inv fs k Hinv)
    as [(_ & ->) | (v & _ & [_ Hsz] & ->)]; [by eauto |].
  destruct (saveFile fs k _ _) as [e fs'] eqn:HS.
  exists e, fs'. split; [done |].
  by apply saveFile_files_inv in HS.
Qed.

Lemma Chtimes_files_inv (fs : BBolt) (k : string) (atime mtime : Z) :
  files_inv fs ->
  exists e fs', Chtimes fs k atime mtime = Returns (e, fs') /\ files_inv fs'.
Proof.
  intros Hinv. unfold Chtimes.
  destruct (loadFile_files_inv fs k Hinv)
    as [(_ & ->) | (v & _ & [_ Hsz] & ->)]; [by eauto |].
  destruct (saveFile fs k _ _) as [e fs'] eqn:HS.
  exists e, fs'. split; [done |].
  by apply saveFile_files_inv in HS.
Qed.

Lemma Rename_files_inv (fs : BBolt) (oldname newname : string) :
  files_inv fs ->
  exists e fs',
    Rename fs oldname newname = Returns (e, fs') /\ files_inv fs'.
Proof.
  intros Hinv. unfold Rename.
  destruct (loadFile_files_inv fs oldname Hinv)
    as [(_ & ->) | (v & _ & [_ Hsz] & ->)]; [by eauto |].
  destruct (saveFile fs newname _ _) as [e fs'] eqn:HS.
  apply saveFile_files_inv in HS; [| done | done].
  destruct e as [err |]; [by eauto |].
  eexists _, _. split; [done |]. by apply Remove_files_inv.
Qed.

(** C9. Call a store good when every value of its file collection has at
    least 21 bytes and a size field equal to the length of the payload
    behind the header. From a good store, [Create] leaves a good store in
    which the created path holds such an entry, and write, writeAt,
    truncate, chmod, chtimes and rename each leave a good store; chmod,
    chtimes and rename moreover return rather than panic. *)
Theorem files_inv_maintained (fs : BBolt) :
  files_inv fs ->
  (forall p now,
     files_inv (snd (Create fs p now)) /\
     forall h fs1, Create fs p now = (Ok h, fs1) ->
       exists v, files fs1 !! p = Some v /\ entry_ok v) /\
  (forall f p now, files_inv (snd (bboltFile_Write f p now fs))) /\
  (forall f p pos now r f' fs',
     bboltFile_WriteAt f p pos now fs = Returns (r, f', fs') ->
     files_inv fs') /\
  (forall f size now e f' fs',
     Buffer_ok (buffer f) ->
     bboltFile_Truncate f size now fs = Returns (e, f', fs') ->
     files_inv fs') /\
  (forall k mode,
     exists e fs', Chmod fs k mode = Returns (e, fs') /\ files_inv fs') /\
  (forall k atime mtime,
     exists e fs',
       Chtimes fs k atime mtime = Returns (e, fs') /\ files_inv fs') /\
  (forall oldname newname,
     exists e fs',
       Rename fs oldname newname = Returns (e, fs') /\ files_inv fs').
Proof.
  intros Hinv.
  split; [| split; [| split; [| split; [| split; [| split]]]]].
  - intros p now. split; [by apply Create_files_inv |].
    intros h fs1 HC.
    pose proof (Create_files_inv fs p now Hinv) as Hinv1.
    rewrite HC in Hinv1. cbn [snd] in Hinv1.
    unfold Create in HC.
    destruct (saveFile fs p _ _) as [[err |] fs0] eqn:HS; [done |].
    injection HC as _ <-.
    apply saveFile_inv in HS as [(_ & -> & _ & _) | (? & _)]; [| done].
    eexists. split; [cbn; apply lookup_insert_eq |].
    eapply Hinv1. cbn. apply lookup_insert_eq.
  - intros f p now. by apply bboltFile_Write_files_inv.
  - intros f p pos now r f' fs'. by apply bboltFile_WriteAt_files_inv.
  - intros f size now e f' fs' Hok. by apply bboltFile_Truncate_files_inv.
  - intros k mode. by apply Chmod_files_inv.
  - intros k atime mtime. by apply Chtimes_files_inv.
  - intros oldname newname. by apply Rename_files_inv.
Qed.

Lemma files_inv_maintained_witness :
  files_inv (snd (Create New "test.txt" 1000)) /\
  files_inv
    (snd (bboltFile_Write
            {| name := "test.txt"; meta := mkMeta 438 0 1000 false;
               buffer := NewBuffer []; offset := 0; closed := false |}
            (list_byte_of_string "hello") 2000 New)).
Proof.
  assert (H0 : files_inv New).
  { intros k v Hk. cbn in Hk. rewrite lookup_empty in Hk. discriminate Hk. }
  destruct (files_inv_maintained New H0) as (HC & HW & _).
  split; [apply HC | apply HW].
Defined.

(** ** Rename *)

(** C7 (amended). On a good store and for two different paths: [Rename]
    fails with the not-found error and leaves the store as it was when the
    file collection has no entry at the old path; when it has one and the
    backend accepts the new path as a key, [Rename] succeeds, stores the
    old entry's metadata and payload at the new path and deletes the old
    path from the file collection, so that afterwards [Open] of the old
    path finds no file (it fails not-found unless a directory entry of
    that name exists) and [Open] of the new path returns a handle with the
    buffer and metadata [Open] of the old path returned before. *)
Theorem Rename_distinct_paths (fs : BBolt) (oldname newname : string) :
  files_inv fs -> oldname <> newname ->
  (files fs !! oldname = None ->
   Rename fs oldname newname = Returns (Some ErrNotExist, fs)) /\
  (forall v,
     files fs !! oldname = Some v ->
     valid_key newname -> Z.of_nat (length v) <= MaxValueSize ->
     exists fs',
       Rename fs oldname newname = Returns (None, fs') /\
       files fs'
       = delete oldname
           (<[newname := encodeMeta (decodeMeta v) ++ drop metaLen v]>
              (files fs)) /\
       dirs fs' = dirs fs /\
       (dirs fs !! oldname = None ->
        Open fs' oldname = Returns (Err ErrNotExist)) /\
       exists g g',
         Open fs oldname = Returns (Ok (AFile g)) /\
         Open fs' newname = Returns (Ok (AFile g')) /\
         buffer g' = buffer g /\ meta g' = meta g /\
         Bytes (buffer g') = drop metaLen v /\ meta g' = decodeMeta v).
Proof.
  intros Hinv Hne. split.
  - intros Hnone. unfold Rename. by rewrite loadFile_missing.
  - intros v Hv Hkey Hfit.
    destruct (Hinv _ _ Hv) as [Hlen _].
    pose proof (decodeMeta_typed v) as (Hmode & Hsize & Htime).
    set (v' := encodeMeta (decodeMeta v) ++ drop metaLen v).
    assert (Hfit' : Z.of_nat (length v') <= MaxValueSize).
    { unfold v'. rewrite length_app, length_encodeMeta, length_drop. lia. }
    set (fs' := {| files := delete oldname (<[newname := v']> (files fs));
                   dirs := dirs fs |}).
    exists fs'.
    assert (HR : Rename fs oldname newname = Returns (None, fs')).
    { unfold Rename. rewrite (loadFile_entry fs oldname v) by done.
      by rewrite saveFile_accepts. }
    split; [done |]. split; [done |]. split; [done |]. split.
    + intros Hdir. unfold Open.
      rewrite loadFile_missing by (cbn; apply lookup_delete_eq).
      unfold Get. cbn [dirs fs']. by rewrite Hdir.
    + eexists _, _. unfold Open.
      rewrite (loadFile_entry fs oldname v) by done.
      rewrite (loadFile_saved fs' newname (decodeMeta v) (drop metaLen v))
        by (cbn; rewrite lookup_delete_ne by done; apply lookup_insert_eq).
      rewrite decodeMeta_encodeMeta_app by done.
      repeat split.
Qed.

Lemma Rename_distinct_paths_witness :
  let fs := snd (Create New "old.txt" 1000) in
  exists fs',
    Rename fs "old.txt" "new.txt" = Returns (None, fs') /\
    Open fs' "old.txt" = Returns (Err ErrNotExist).
Proof.
  intros fs.
  assert (Hinv : files_inv fs)
    by (apply Create_files_inv, files_inv_New).
  assert (Hne : "old.txt" <> "new.txt") by discriminate.
  destruct (Rename_distinct_paths fs "old.txt" "new.txt" Hinv Hne)
    as [_ H].
  destruct (H (encodeMeta (mkMeta 438 0 1000 false)))
    as (fs' & HR & _ & _ & HO & _).
  - vm_compute. reflexivity.
  - split; vm_compute; [lia | discriminate].
  - vm_compute. discriminate.
  - exists fs'. split; [exact HR | apply HO; reflexivity].
Defined.

(** C7 as stated fails when the two paths are the same: [Rename] of a
    file onto itself succeeds and deletes it, so that [Open] of the new
    path, which held four bytes before, fails not-found. *)
Lemma Rename_onto_itself_loses_file :
  exists f fs1 r f2 fs2 g fs3,
    Create New "a.txt" 1000 = (Ok (AFile f), fs1) /\
    bboltFile_WriteString f "data" 2000 fs1 = (r, f2, fs2) /\
    Open fs2 "a.txt" = Returns (Ok (AFile g)) /\
    Bytes (buffer g) = list_byte_of_string "data" /\
    Rename fs2 "a.txt" "a.txt" = Returns (None, fs3) /\
    Open fs3 "a.txt" = Returns (Err ErrNotExist).
Proof.
  eexists _, _, _, _, _, _, _.
  split; [vm_compute; reflexivity |].
  split; [vm_compute; reflexivity |].
  split; [vm_compute; reflexivity |].
  split; [vm_compute; reflexivity |].
  split; [vm_compute; reflexivity |].
  vm_compute; reflexivity.
Qed.

(** ** Byte order and prefixes of keys *)

Lemma Ascii_compare_refl (a : ascii) : Ascii.compare a a = Eq.
Proof. unfold Ascii.compare. apply N.compare_refl. Qed.

Lemma String_prefix_le (p k : string) :
  String.prefix p k = true -> String.le p k.
Proof.
  unfold String.le, String.leb. revert k.
  induction p as [| a p IH]; intros [| b k]; cbn; try done.
  destruct (ascii_dec a b) as [<- | ?]; [| done].
  rewrite Ascii_compare_refl. apply IH.
Qed.

(** A key between a string and one of its extensions extends it too: the
    keys with a given prefix are consecutive in byte order. *)
Lemma String_prefix_between (p x k : string) :
  String.le p x -> String.le x k ->
  String.prefix p k = true -> String.prefix p x = true.
Proof.
  unfold String.le, String.leb. revert x k.
  induction p as [| a p IH]; intros [| b x] [| c k]; cbn; try done.
  destruct (ascii_dec a c) as [<- | ?]; [| done].
  destruct (Ascii.compare a b) eqn:Hab; [| | done].
  - apply Ascii.compare_eq_iff in Hab as <-.
    rewrite Ascii_compare_refl.
    destruct (ascii_dec a a); [| done]. apply IH.
  - rewrite Ascii.compare_antisym, Hab. done.
Qed.

(** ** The cursor *)

Lemma elem_of_cursor_keys (b : bucket) (k : string) :
  k ∈ cursor_keys b <-> is_Some (b !! k).
Proof.
  unfold cursor_keys. rewrite merge_sort_Permutation, list_elem_of_fmap.
  split.
  - intros ([k' v] & -> & Hkv). apply elem_of_map_to_list in Hkv. by eexists.
  - intros [v Hv]. exists (k, v). split; [done |].
    by apply elem_of_map_to_list.
Qed.

Lemma cursor_keys_sorted (b : bucket) :
  StronglySorted String.le (cursor_keys b).
Proof. apply StronglySorted_merge_sort; apply _. Qed.

(** After [Seek] the cursor holds the keys not below the sought one. *)
Lemma skip_below_spec (seek : string) (ks : list string) :
  StronglySorted String.le ks ->
  StronglySorted String.le (skip_below seek ks) /\
  Forall (String.le seek) (skip_below seek ks) /\
  forall k, k ∈ skip_below seek ks <-> k ∈ ks /\ String.le seek k.
Proof.
  induction 1 as [| x ks Hsorted IH Hx]; cbn [skip_below].
  - split; [constructor |]. split; [constructor |].
    intros k. split; [by intros ?%elem_of_nil | by intros [?%elem_of_nil _]].
  - destruct (decide (String.le seek x)) as [Hle | Hle].
    + assert (Hall : Forall (String.le seek) (x :: ks)).
      { constructor; [done |].
        eapply Forall_impl; [exact Hx |]. intros y Hy. by etrans. }
      split; [by constructor |]. split; [done |].
      intros k. split; [| tauto].
      intros Hk. split; [done |].
      by eapply Forall_forall in Hall.
    + destruct IH as (IH1 & IH2 & IH3).
      split; [done |]. split; [done |].
      intros k. rewrite IH3, elem_of_cons. split; [tauto |].
      intros [[-> | Hk] Hlek]; [done | tauto].
Qed.

(** ** RemoveAll *)

(** The loop, started on sorted keys none of which is below the prefix,
    deletes the keys under the cursor that carry the prefix. *)
Lemma RemoveAll_loop_lookup (prefix : string) (c : list string) (b : bucket)
    (k : string) :
  StronglySorted String.le c -> Forall (String.le prefix) c ->
  RemoveAll_loop prefix c b !! k
  = if decide (k ∈ c /\ String.prefix prefix k = true) then None else b !! k.
Proof.
  intros Hsorted. revert b.
  induction Hsorted as [| x c Hsorted IH Hx]; intros b Hge; cbn [RemoveAll_loop].
  - rewrite decide_False; [done |]. by intros [?%elem_of_nil _].
  - apply Forall_cons in Hge as [Hpx Hge].
    destruct (String.prefix prefix x) eqn:Hpre.
    + rewrite IH by done. unfold Delete.
      destruct (decide (k = x)) as [-> | Hne].
      * rewrite lookup_delete_eq.
        rewrite (decide_True (P := x ∈ x :: c /\ _))
          by (split; [apply elem_of_cons; by left | done]).
        by case_decide.
      * rewrite lookup_delete_ne by done.
        destruct (decide (k ∈ c /\ String.prefix prefix k = true))
          as [[Hin Hk] | Hnot].
        -- rewrite decide_True; [done |].
           split; [apply elem_of_cons; by right | done].
        -- rewrite decide_False; [done |].
           intros [[? | Hin]%elem_of_cons Hk]; [done |]. by apply Hnot.
    + rewrite decide_False; [done |].
      intros [[-> | Hin]%elem_of_cons Hk]; [congruence |].
      assert (String.le x k) by (by eapply Forall_forall in Hx).
      assert (String.prefix prefix x = true)
        by (by eapply String_prefix_between).
      congruence.
Qed.

(** What [RemoveAll] leaves behind each key of the file collection. *)
Lemma RemoveAll_files_lookup (fs : BBolt) (p k : string) :
  files (snd (RemoveAll fs p)) !! k
  = if String.prefix p k then None else files fs !! k.
Proof.
  cbn [RemoveAll snd files].
  destruct (skip_below_spec p (cursor_keys (files fs))
              (cursor_keys_sorted (files fs))) as (Hsorted & Hge & Hin).
  unfold Cursor_Seek. rewrite RemoveAll_loop_lookup by done.
  destruct (String.prefix p k) eqn:Hpre.
  - case_decide as Hk; [done |].
    destruct (files fs !! k) as [v |] eqn:Hv; [| done].
    exfalso. apply Hk. split; [| done].
    apply Hin. split.
    + apply elem_of_cursor_keys. by eexists.
    + by apply String_prefix_le.
  - rewrite decide_False; [done |]. by intros [_ ?].
Qed.

(** C6. [RemoveAll] always succeeds. It leaves in the file collection
    exactly the entries whose key does not have the path as a byte-level
    prefix, each with its value, and it deletes from the directory
    collection the one key equal to the path. *)
Theorem RemoveAll_deletes_prefixed_keys (fs : BBolt) (p : string) :
  exists fs',
    RemoveAll fs p = (None, fs') /\
    (forall k,
       files fs' !! k
       = if String.prefix p k then None else files fs !! k) /\
    dirs fs' = delete p (dirs fs).
Proof.
  exists (snd (RemoveAll fs p)). split; [reflexivity |].
  split; [| reflexivity].
  intros k. apply RemoveAll_files_lookup.
Qed.

(** Removing the directory "ab" also removes the sibling file "abc.txt",
    and the files under "ab/"; the file "b.txt" stays. Removing a path
    that matches nothing succeeds and changes nothing. *)
Lemma RemoveAll_ab_takes_abc_txt :
  let fs0 := snd (Mkdir New "ab" 493 1000) in
  let fs1 := snd (Create fs0 "ab/x.txt" 1001) in
  let fs2 := snd (Create fs1 "abc.txt" 1002) in
  let fs3 := snd (Create fs2 "b.txt" 1003) in
  cursor_keys (files fs3) = ["ab/x.txt"; "abc.txt"; "b.txt"]%string /\
  fst (RemoveAll fs3 "ab") = None /\
  cursor_keys (files (snd (RemoveAll fs3 "ab"))) = ["b.txt"%string] /\
  cursor_keys (dirs (snd (RemoveAll fs3 "ab"))) = [] /\
  RemoveAll fs3 "zz" = (None, fs3).
Proof. vm_compute. repeat split. Qed.

(** ** Reachable stores *)

Lemma Mkdir_files (fs : BBolt) (p : string) (perm now : Z) :
  files (snd (Mkdir fs p perm now)) = files fs.
Proof.
  unfold Mkdir, saveDir. by destruct (Put (dirs fs) p _).
Qed.

Lemma RemoveAll_files_inv (fs : BBolt) (p : string) :
  files_inv fs -> files_inv (snd (RemoveAll fs p)).
Proof.
  intros Hinv k v. rewrite RemoveAll_files_lookup.
  destruct (String.prefix p k); [done | apply Hinv].
Qed.

(** The invariant holds of every store a program can reach. *)
Lemma reachable_files_inv (fs : BBolt) : reachable fs -> files_inv fs.
Proof.
  induction 1 as
    [ | fs p now _ IH | fs p perm now _ IH | fs p _ IH | fs p _ IH
    | fs o n e fs' _ IH HR | fs k mode e fs' _ IH HC
    | fs k atime mtime e fs' _ IH HC | fs f p now _ IH
    | fs f p pos now r f' fs' _ IH HW
    | fs f size now e f' fs' _ IH Hok HT ].
  - apply files_inv_New.
  - by apply Create_files_inv.
  - intros k v. rewrite Mkdir_files. apply IH.
  - by apply Remove_files_inv.
  - by apply RemoveAll_files_inv.
  - destruct (Rename_files_inv fs o n IH) as (e0 & fs0 & HR0 & Hinv).
    rewrite HR in HR0. by injection HR0 as -> ->.
  - destruct (Chmod_files_inv fs k mode IH) as (e0 & fs0 & HC0 & Hinv).
    rewrite HC in HC0. by injection HC0 as -> ->.
  - destruct (Chtimes_files_inv fs k atime mtime IH)
      as (e0 & fs0 & HC0 & Hinv).
    rewrite HC in HC0. by injection HC0 as -> ->.
  - by apply bboltFile_Write_files_inv.
  - by eapply bboltFile_WriteAt_files_inv.
  - by eapply bboltFile_Truncate_files_inv.
Qed.

(** On a reachable store the operations that load an entry never panic. *)
Lemma reachable_Open_returns (fs : BBolt) (p : string) :
  reachable fs -> exists r, Open fs p = Returns r.
Proof.
  intros Hinv%reachable_files_inv. unfold Open.
  destruct (loadFile_files_inv fs p Hinv)
    as [(_ & ->) | (v & _ & _ & ->)]; [| by eauto].
  destruct (Get (dirs fs) p); by eauto.
Qed.

(** * Further properties *)

(** ** Closed handles *)

(** After [Close], every buffer operation of the handle fails with
    [os.ErrClosed], returns a zero count and leaves the handle and the
    store as they are; closing again succeeds and changes nothing. *)
Theorem closed_handle_rejects (f : bboltFile) (n : nat) (p : list byte)
    (pos o whence size now : Z) (fs : BBolt) :
  let g := snd (bboltFile_Close f) in
  bboltFile_Read g n = (([], Some ErrClosed), g) /\
  bboltFile_ReadAt g n pos = Returns (([], Some ErrClosed), g) /\
  bboltFile_Seek g o whence = ((0, Some ErrClosed), g) /\
  bboltFile_Write g p now fs = ((0%nat, Some ErrClosed), g, fs) /\
  bboltFile_WriteAt g p pos now fs
    = Returns ((0%nat, Some ErrClosed), g, fs) /\
  bboltFile_Truncate g size now fs = Returns (Some ErrClosed, g, fs) /\
  bboltFile_Close g = (None, g).
Proof. repeat split. Qed.

(** ** Sequential reads *)

(** A read on an open handle returns the first [n] unread bytes (all of
    them when fewer are left), and exactly those are consumed; the error
    is [io.EOF] exactly when nothing is left to read and the destination
    is not empty, and nil otherwise. Nothing but the buffer changes. *)
Theorem bboltFile_Read_consumes_prefix (f : bboltFile) (n : nat) :
  closed f = false -> Buffer_ok (buffer f) ->
  exists e b,
    bboltFile_Read f n
    = ((take n (Bytes (buffer f)), e), set_buffer b f) /\
    Bytes b = drop n (Bytes (buffer f)) /\
    Buffer_ok b /\
    (e = Some EOF <-> Bytes (buffer f) = [] /\ n <> 0%nat) /\
    (e <> Some EOF -> e = None).
Proof.
  intros Hc Hok. unfold bboltFile_Read, Buffer_Read. rewrite Hc.
  unfold Buffer_ok in Hok.
  case_decide as Hempty.
  - assert (Hnil : Bytes (buffer f) = [])
      by (unfold Bytes; apply drop_ge; lia).
    rewrite Hnil, take_nil, drop_nil.
    eexists _, _. split; [reflexivity |]. split; [reflexivity |].
    split; [unfold Buffer_ok; cbn; lia |].
    destruct n; cbn; intuition congruence.
  - eexists None, _. cbn zeta. split; [reflexivity |].
    assert (Hne : Bytes (buffer f) <> []).
    { intros Hnil. apply (f_equal length) in Hnil.
      unfold Bytes in Hnil. rewrite length_drop in Hnil. cbn in Hnil. lia. }
    split; [| split; [| split; [| done]]].
    + unfold Bytes at 1. cbn [buf off]. unfold Bytes.
      rewrite length_take, length_drop, drop_drop.
      destruct (Nat.le_ge_cases n (length (buf (buffer f)) - off (buffer f)))
        as [Hle | Hge].
      * by rewrite Nat.min_l by done.
      * rewrite Nat.min_r by done. rewrite !drop_ge by lia. done.
    + unfold Buffer_ok. cbn [buf off]. unfold Bytes.
      rewrite length_take, length_drop. lia.
    + split; [done |]. by intros [? _].
Qed.

Lemma bboltFile_Read_consumes_prefix_witness :
  let f := {| name := "a.txt"; meta := mkMeta 438 5 0 false;
              buffer := NewBuffer (list_byte_of_string "hello");
              offset := 0; closed := false |} in
  exists e b,
    bboltFile_Read f 3 = ((list_byte_of_string "hel", e), set_buffer b f) /\
    Bytes b = list_byte_of_string "lo".
Proof.
  intros f.
  destruct (bboltFile_Read_consumes_prefix f 3) as (e & b & H1 & H2 & _).
  - reflexivity.
  - unfold Buffer_ok. cbn. lia.
  - exists e, b. split; [exact H1 | exact H2].
Defined.

(** ** Writes *)

(** A write through an open handle returns [len(p)], appends [p] to the
    unread bytes and sets the size and modification time of the handle's
    metadata, whether or not the store accepts the entry. When it does,
    the entry of the handle's path becomes the new header followed by all
    the unread bytes and nothing else in the store changes; when it does
    not, the error is returned and the store is left as it was, beside a
    buffer that already holds [p]. *)
Theorem bboltFile_Write_appends_and_persists (f : bboltFile) (p : list byte)
    (now : Z) (fs : BBolt) :
  closed f = false -> Buffer_ok (buffer f) ->
  exists e g fs',
    bboltFile_Write f p now fs = ((length p, e), g, fs') /\
    Bytes (buffer g) = Bytes (buffer f) ++ p /\
    Buffer_ok (buffer g) /\
    meta g = {| Mode := Mode (meta f);
                Size := Z.of_nat (length (Bytes (buffer f) ++ p));
                ModTime := now; IsDir := IsDir (meta f) |} /\
    name g = name f /\ offset g = offset f /\ closed g = false /\
    ((e = None /\
      fs' = {| files := <[name f := encodeMeta (meta g)
                                     ++ Bytes (buffer f) ++ p]> (files fs);
               dirs := dirs fs |})
     \/ (e <> None /\ fs' = fs)).
Proof.
  intros Hc Hok. unfold bboltFile_Write. rewrite Hc.
  cbn [Buffer_Write set_buffer touch buffer name meta].
  pose proof (Bytes_Buffer_Write (buffer f) p Hok) as HB.
  cbn [Buffer_Write snd] in HB.
  destruct (saveFile fs (name f) _ _) as [e fs'] eqn:HS.
  eexists e, _, fs'. split; [reflexivity |].
  cbn [buffer meta name offset closed].
  split; [done |].
  split; [unfold Buffer_ok in *; cbn; rewrite length_app; lia |].
  split; [by rewrite Len_Bytes, HB |].
  split; [done |]. split; [done |]. split; [done |].
  apply saveFile_inv in HS as [(-> & -> & _) | (He & ->)].
  - left. split; [done |]. by rewrite HB.
  - by right.
Qed.

Lemma bboltFile_Write_appends_and_persists_witness :
  let f := {| name := "a.txt"; meta := mkMeta 438 2 0 false;
              buffer := NewBuffer (list_byte_of_string "ab");
              offset := 0; closed := false |} in
  exists e g fs',
    bboltFile_Write f (list_byte_of_string "cd") 7 New
    = ((2%nat, e), g, fs') /\
    Bytes (buffer g) = list_byte_of_string "abcd".
Proof.
  intros f.
  destruct (bboltFile_Write_appends_and_persists
              f (list_byte_of_string "cd") 7 New)
    as (e & g & fs' & HW & HB & _).
  - reflexivity.
  - unfold Buffer_ok. cbn. lia.
  - exists e, g, fs'. split; [exact HW | exact HB].
Defined.

(** ** Truncate *)



(** ** Negative offsets and sizes *)

(** On an open handle a negative offset makes [ReadAt] and [WriteAt]
    panic, and a negative size makes [Truncate] panic: each slices the
    buffer at the negative index. (On a closed handle they return
    [os.ErrClosed] first.) *)
Theorem negative_index_panics (f : bboltFile) (n : nat) (p : list byte)
    (z now : Z) (fs : BBolt) :
  closed f = false -> z < 0 ->
  bboltFile_ReadAt f n z = Panics /\
  bboltFile_WriteAt f p z now fs = Panics /\
  bboltFile_Truncate f z now fs = Panics.
Proof.
  intros Hc Hz. unfold bboltFile_ReadAt, bboltFile_WriteAt, bboltFile_Truncate.
  rewrite Hc. repeat split.
  - destruct (Z.leb_spec (Z.of_nat (length (Bytes (buffer f)))) z); [lia |].
    by destruct (Z.ltb_spec z 0); [| lia].
  - destruct (Z.ltb_spec (Z.of_nat (length (Bytes (buffer f)))) z); [lia |].
    by destruct (Z.ltb_spec z 0); [| lia].
  - destruct (Z.ltb_spec z (Z.of_nat (length (Bytes (buffer f))))); [| lia].
    by destruct (Z.ltb_spec z 0); [| lia].
Qed.

Lemma negative_index_panics_witness :
  let f := {| name := "a.txt"; meta := mkMeta 438 0 0 false;
              buffer := NewBuffer []; offset := 0; closed := false |} in
  bboltFile_ReadAt f 1 (-1) = Panics /\
  bboltFile_Truncate f (-1) 0 New = Panics.
Proof.
  intros f.
  destruct (negative_index_panics f 1 [] (-1) 0 New) as (H1 & _ & H3);
    [reflexivity | lia |].
  split; [exact H1 | exact H3].
Defined.

(** ** What every reachable store satisfies *)

Lemma saveFile_stored_ok (fs fs' : BBolt) (k : string) (data : list byte)
    (m : fileMeta) (e : option error) :
  stored_ok fs -> saveFile fs k data m = (e, fs') -> stored_ok fs'.
Proof.
  intros [Hf Hd] HS.
  apply saveFile_inv in HS as [(_ & -> & Hk & Hfit) | (_ & ->)]; [| done].
  split; [| done]. intros k' v'. cbn [files]. rewrite lookup_insert.
  case_decide as Heq; [| by apply Hf]. subst k'. by intros [= <-].
Qed.

Lemma saveDir_stored_ok (fs : BBolt) (k : string) (m : fileMeta) :
  stored_ok fs -> stored_ok (snd (saveDir fs k m)).
Proof.
  intros [Hf Hd]. unfold saveDir.
  destruct (Put (dirs fs) k (encodeMeta m)) as [e b] eqn:HP. cbn [snd].
  apply Put_inv in HP as [(_ & -> & Hk & _) | (_ & ->)]; [| done].
  split; [done |]. intros k' v'. cbn [dirs]. rewrite lookup_insert.
  case_decide as Heq; [| by apply Hd]. subst k'. intros [= <-].
  split; [done | apply length_encodeMeta].
Qed.

Lemma Remove_stored_ok (fs : BBolt) (k : string) :
  stored_ok fs -> stored_ok (snd (Remove fs k)).
Proof.
  intros [Hf Hd]. split; [| done]. intros k' v'. cbn. unfold Delete.
  rewrite lookup_delete. case_decide; [done | by apply Hf].
Qed.

Lemma RemoveAll_stored_ok (fs : BBolt) (p : string) :
  stored_ok fs -> stored_ok (snd (RemoveAll fs p)).
Proof.
  intros [Hf Hd]. split.
  - intros k v. rewrite RemoveAll_files_lookup.
    destruct (String.prefix p k); [done | apply Hf].
  - intros k v. cbn. unfold Delete. rewrite lookup_delete.
    case_decide; [done | by apply Hd].
Qed.

Lemma reachable_stored_ok (fs : BBolt) : reachable fs -> stored_ok fs.
Proof.
  induction 1 as
    [ | fs p now _ IH | fs p perm now _ IH | fs p _ IH | fs p _ IH
    | fs o n e fs' _ IH HR | fs k mode e fs' _ IH HC
    | fs k atime mtime e fs' _ IH HC | fs f p now _ IH
    | fs f p pos now r f' fs' _ IH HW
    | fs f size now e f' fs' _ IH Hok HT ].
  - split; intros k v Hk; cbn in Hk; by rewrite lookup_empty in Hk.
  - unfold Create. destruct (saveFile fs p _ _) as [e fs'] eqn:HS.
    apply saveFile_stored_ok in HS; [| done]. by destruct e.
  - by apply saveDir_stored_ok.
  - by apply Remove_stored_ok.
  - by apply RemoveAll_stored_ok.
  - unfold Rename in HR. destruct (loadFile fs o) as [[[data m] [err |]] |];
      [by injection HR as <- <- | | done].
    destruct (saveFile fs n data m) as [[err |] fs0] eqn:HS;
      apply saveFile_stored_ok in HS; try done.
    + by injection HR as <- <-.
    + injection HR as <- <-. by apply (Remove_stored_ok fs0).
  - unfold Chmod in HC. destruct (loadFile fs k) as [[[data m] [err |]] |];
      [by injection HC as <- <- | | done].
    destruct (saveFile fs k data _) as [e0 fs0] eqn:HS.
    injection HC as <- <-. by apply saveFile_stored_ok in HS.
  - unfold Chtimes in HC. destruct (loadFile fs k) as [[[data m] [err |]] |];
      [by injection HC as <- <- | | done].
    destruct (saveFile fs k data _) as [e0 fs0] eqn:HS.
    injection HC as <- <-. by apply saveFile_stored_ok in HS.
  - unfold bboltFile_Write. destruct (closed f); [done |].
    cbn [Buffer_Write set_buffer touch buffer name meta].
    destruct (saveFile fs (name f) _ _) as [e fs'] eqn:HS.
    by apply saveFile_stored_ok in HS.
  - unfold bboltFile_WriteAt in HW.
    destruct (closed f); [by injection HW as <- <- <- |].
    destruct ((pos <? 0) || _); [done |].
    set (g := touch _ now _) in HW.
    destruct (saveFile fs (name g) _ _) as [e fs0] eqn:HS.
    injection HW as <- <- <-. by apply saveFile_stored_ok in HS.
  - unfold bboltFile_Truncate in HT.
    destruct (closed f); [by injection HT as <- <- <- |].
    destruct (if size <? _ then _ else _) as [b |]; [| done].
    cbn [set_buffer touch buffer name meta] in HT.
    destruct (saveFile fs (name f) _ _) as [e0 fs0] eqn:HS.
    injection HT as <- <- <-. by apply saveFile_stored_ok in HS.
Qed.

(** ** The store primitives *)

(** What [saveFile] stores, [loadFile] gives back: for every key and value
    the backend accepts and every record of Go-typed fields, a [loadFile]
    after the [saveFile] returns the same payload and the same record.
    Other keys and the directory collection are not touched. *)
Theorem saveFile_loadFile_roundtrip (fs : BBolt) (k : string)
    (data : list byte) (m : fileMeta) :
  valid_key k -> Z.of_nat (metaLen + length data) <= MaxValueSize ->
  meta_typed m ->
  exists fs',
    saveFile fs k data m = (None, fs') /\
    loadFile fs' k = Returns (data, m, None) /\
    (forall k', k' <> k -> loadFile fs' k' = loadFile fs k') /\
    dirs fs' = dirs fs.
Proof.
  intros Hk Hfit (Hmode & Hsize & Htime).
  eexists. split.
  { apply saveFile_accepts; [done |].
    rewrite length_app, length_encodeMeta. lia. }
  split; [| split; [| done]].
  - rewrite (loadFile_saved _ k m data) by (cbn; apply lookup_insert_eq).
    by rewrite decodeMeta_encodeMeta_app.
  - intros k' Hne. unfold loadFile, Get. cbn [files].
    by rewrite lookup_insert_ne.
Qed.

Lemma saveFile_loadFile_roundtrip_witness :
  exists fs',
    saveFile New "a.txt" (list_byte_of_string "abc") (mkMeta 438 3 7 false)
    = (None, fs') /\
    loadFile fs' "a.txt"
    = Returns (list_byte_of_string "abc", mkMeta 438 3 7 false, None).
Proof.
  destruct (saveFile_loadFile_roundtrip New "a.txt"
              (list_byte_of_string "abc") (mkMeta 438 3 7 false))
    as (fs' & HS & HL & _).
  - split; vm_compute; [lia | discriminate].
  - vm_compute. discriminate.
  - unfold meta_typed, is_uint32, is_int64. cbn. lia.
  - exists fs'. split; [exact HS | exact HL].
Defined.

(** ** Keys the backend refuses *)

Lemma Put_refuses (b : bucket) (k : string) (v : list byte) :
  ~ valid_key k ->
  Put b k v
  = (Some (if String.eqb k "" then ErrKeyRequired else ErrKeyTooLarge), b).
Proof.
  unfold valid_key, Put. intros Hk.
  destruct k as [| a k]; [done |].
  cbn [String.length Nat.eqb String.eqb].
  destruct (Z.ltb_spec MaxKeySize (Z.of_nat (S (String.length k))));
    [done |].
  exfalso. apply Hk. cbn [String.length]. lia.
Qed.

(** With the empty path, or one longer than the backend's key limit,
    [Create] and [Mkdir] fail with the backend's error ([ErrKeyRequired]
    for the empty path) and leave the store as it was; so does a [Rename]
    of an existing file to such a path, which keeps the old entry. *)
Theorem refused_key_changes_nothing (fs : BBolt) (p : string) (now perm : Z) :
  ~ valid_key p ->
  let e := if String.eqb p "" then ErrKeyRequired else ErrKeyTooLarge in
  Create fs p now = (Err e, fs) /\
  Mkdir fs p perm now = (Some e, fs) /\
  (forall oldname v,
     files fs !! oldname = Some v -> (metaLen <= length v)%nat ->
     Rename fs oldname p = Returns (Some e, fs)).
Proof.
  intros Hk e.
  assert (HS : forall data m, saveFile fs p data m = (Some e, fs)).
  { intros data m. unfold saveFile. rewrite Put_refuses by done.
    by destruct fs. }
  split; [| split].
  - unfold Create. by rewrite HS.
  - unfold Mkdir, saveDir. rewrite Put_refuses by done. by destruct fs.
  - intros oldname v Hv Hlen. unfold Rename.
    rewrite (loadFile_entry fs oldname v) by done. by rewrite HS.
Qed.

Lemma refused_key_changes_nothing_witness :
  Create New "" 5 = (Err ErrKeyRequired, New) /\
  Mkdir New "" 493 5 = (Some ErrKeyRequired, New).
Proof.
  destruct (refused_key_changes_nothing New "" 5 493) as (H1 & H2 & _).
  - intros [H _]. cbn in H. lia.
  - split; [exact H1 | exact H2].
Defined.

(** ** Create *)

(** [Create] of an accepted path succeeds whatever the store held: the
    path then holds an empty file, [Open] of it returns the very handle
    [Create] returned, and no other file entry and no directory entry
    changes. *)
Theorem Create_resets_entry (fs : BBolt) (p : string) (now : Z) :
  valid_key p -> is_int64 now ->
  exists f fs',
    Create fs p now = (Ok (AFile f), fs') /\
    Bytes (buffer f) = [] /\
    meta f = {| Mode := 438; Size := 0; ModTime := now; IsDir := false |} /\
    Open fs' p = Returns (Ok (AFile f)) /\
    (forall k, k <> p -> files fs' !! k = files fs !! k) /\
    dirs fs' = dirs fs.
Proof.
  intros Hk Hnow. unfold Create.
  rewrite saveFile_accepts;
    [| done | rewrite length_app, length_encodeMeta; cbn; unfold MaxValueSize; lia].
  eexists _, _. split; [reflexivity |]. cbn [buffer meta].
  split; [done |]. split; [done |]. split; [| split; [| done]].
  - unfold Open.
    rewrite (loadFile_saved _ p (mkMeta 438 0 now false) [])
      by (cbn; apply lookup_insert_eq).
    rewrite decodeMeta_encodeMeta_app;
      [done | unfold is_uint32; cbn; lia | unfold is_int64; cbn; lia | done].
  - intros k Hne. cbn [files]. by rewrite lookup_insert_ne.
Qed.

Lemma Create_resets_entry_witness :
  let fs := snd (bboltFile_Write
                   {| name := "a.txt"; meta := mkMeta 438 0 1 false;
                      buffer := NewBuffer []; offset := 0; closed := false |}
                   (list_byte_of_string "old") 2 New) in
  exists f fs',
    Create fs "a.txt" 3 = (Ok (AFile f), fs') /\
    Open fs' "a.txt" = Returns (Ok (AFile f)) /\
    Bytes (buffer f) = [].
Proof.
  intros fs.
  destruct (Create_resets_entry fs "a.txt" 3)
    as (f & fs' & HC & HB & _ & HO & _).
  - split; vm_compute; [lia | discriminate].
  - unfold is_int64. lia.
  - exists f, fs'. split; [exact HC |]. split; [exact HO | exact HB].
Defined.

(** ** Remove *)

(** [Remove] always succeeds and deletes the path from the file
    collection only: other file entries and every directory entry stay,
    and the store is returned unchanged when the path held no file.
    Afterwards [Open] of the path finds no file; it returns the directory
    of that name when there is one, so a directory cannot be removed with
    [Remove]. *)
Theorem Remove_deletes_file_only (fs : BBolt) (p : string) :
  exists fs',
    Remove fs p = (None, fs') /\
    files fs' !! p = None /\
    (forall k, k <> p -> files fs' !! k = files fs !! k) /\
    dirs fs' = dirs fs /\
    (files fs !! p = None -> fs' = fs) /\
    Open fs' p
    = match dirs fs !! p with
      | Some val =>
          Returns (Ok (ADir {| dname := p; dmeta := decodeMeta val |}))
      | None => Returns (Err ErrNotExist)
      end.
Proof.
  eexists. split; [reflexivity |]. cbn [files dirs]. unfold Delete.
  split; [apply lookup_delete_eq |].
  split; [by intros k Hne; rewrite lookup_delete_ne |].
  split; [done |]. split.
  - intros Hnone. rewrite delete_id by done. by destruct fs.
  - unfold Open.
    rewrite loadFile_missing by (cbn; apply lookup_delete_eq).
    unfold Get. cbn [dirs]. by destruct (dirs fs !! p).
Qed.

(** ** Stat *)

(** [Stat] of a path is the [Stat] of the handle [Open] returns for it: of
    the file handle when the path holds a file, of the directory handle
    when it holds a directory only, and the same not-found error (or the
    same panic on a truncated entry) otherwise. *)
Theorem Stat_agrees_with_Open (fs : BBolt) (p : string) :
  Stat fs p
  = match Open fs p with
    | Panics => Panics
    | Returns (Err e) => Returns (Err e)
    | Returns (Ok (AFile f)) => Returns (bboltFile_Stat f)
    | Returns (Ok (ADir d)) => Returns (bboltDirFile_Stat d)
    end.
Proof.
  unfold Stat, Open, loadFile, Get.
  destruct (files fs !! p) as [v |].
  - by case_decide.
  - by destruct (dirs fs !! p).
Qed.

(** On a reachable store no operation that loads an entry panics:
    [Open], [Stat], [Chmod], [Chtimes] and [Rename] all return. *)
Theorem reachable_store_never_panics (fs : BBolt) (p q : string)
    (mode atime mtime : Z) :
  reachable fs ->
  (exists r, Open fs p = Returns r) /\
  (exists r, Stat fs p = Returns r) /\
  (exists r, Chmod fs p mode = Returns r) /\
  (exists r, Chtimes fs p atime mtime = Returns r) /\
  (exists r, Rename fs p q = Returns r).
Proof.
  intros Hinv%reachable_files_inv.
  split; [| split; [| split; [| split]]].
  - unfold Open.
    destruct (loadFile_files_inv fs p Hinv)
      as [(_ & ->) | (v & _ & _ & ->)]; [| by eauto].
    destruct (Get (dirs fs) p); by eauto.
  - unfold Stat.
    destruct (loadFile_files_inv fs p Hinv)
      as [(_ & ->) | (v & _ & _ & ->)]; [| by eauto].
    destruct (Get (dirs fs) p); by eauto.
  - destruct (Chmod_files_inv fs p mode Hinv) as (e & fs' & -> & _).
    by eauto.
  - destruct (Chtimes_files_inv fs p atime mtime Hinv) as (e & fs' & -> & _).
    by eauto.
  - destruct (Rename_files_inv fs p q Hinv) as (e & fs' & -> & _).
    by eauto.
Qed.

Lemma reachable_store_never_panics_witness :
  exists r, Stat (snd (Create New "a.txt" 1)) "a.txt" = Returns r.
Proof.
  destruct (reachable_store_never_panics
              (snd (Create New "a.txt" 1)) "a.txt" "b.txt" 0 0 0)
    as (_ & H & _).
  - apply reach_Create, reach_New.
  - exact H.
Defined.

(** A truncated entry, which no operation of the store writes, does make
    them panic. *)
Lemma truncated_entry_panics (fs : BBolt) (p q : string) (v : list byte)
    (mode : Z) :
  files fs !! p = Some v -> (length v < metaLen)%nat ->
  Open fs p = Panics /\ Stat fs p = Panics /\ Chmod fs p mode = Panics /\
  Rename fs p q = Panics.
Proof.
  intros Hv Hlen.
  assert (HL : loadFile fs p = Panics).
  { unfold loadFile, Get. rewrite Hv. rewrite decide_False by lia. done. }
  unfold Open, Stat, Chmod, Rename. by rewrite HL.
Qed.

(** ** Mkdir *)

Lemma lor_ModeDir_uint32 (perm : Z) :
  is_uint32 perm -> is_uint32 (Z.lor perm ModeDir).
Proof.
  unfold is_uint32, ModeDir.
  change (Z.shiftl 1 31) with 2147483648. change (2 ^ 32) with 4294967296.
  intros [H0 H1]. split; [apply Z.lor_nonneg; lia |].
  apply Z.log2_lt_cancel. rewrite Z.log2_lor by lia.
  change (Z.log2 4294967296) with 32. change (Z.log2 2147483648) with 31.
  destruct (Z.eq_dec perm 0) as [-> | Hne]; [cbn; lia |].
  assert (Z.log2 perm < 32) by (apply Z.log2_lt_pow2; lia). lia.
Qed.

(** [Mkdir] of an accepted path stores a directory entry with the
    directory bit set in the mode and touches no file entry. When the
    path holds no file, [Open] then returns a directory handle with that
    metadata and [Stat] reports a directory of size 0 with that mode and
    time. *)
Theorem Mkdir_then_Open_and_Stat (fs : BBolt) (p : string) (perm now : Z) :
  valid_key p -> is_uint32 perm -> is_int64 now ->
  files fs !! p = None ->
  let m := {| Mode := Z.lor perm ModeDir; Size := 0; ModTime := now;
              IsDir := true |} in
  exists fs',
    Mkdir fs p perm now = (None, fs') /\
    files fs' = files fs /\
    Open fs' p = Returns (Ok (ADir {| dname := p; dmeta := m |})) /\
    Stat fs' p
    = Returns (Ok {| fi_name := Base p; fi_size := 0;
                     fi_mode := Z.lor perm ModeDir; fi_modTime := now;
                     fi_isDir := true |}).
Proof.
  intros Hk Hperm Hnow Hnone m. unfold Mkdir, saveDir. fold m.
  rewrite Put_accepts;
    [| done | rewrite length_encodeMeta; cbn; unfold MaxValueSize; lia].
  eexists. split; [reflexivity |]. split; [done |].
  assert (Hdec : decodeMeta (encodeMeta m) = m).
  { rewrite <- (app_nil_r (encodeMeta m)).
    apply decodeMeta_encodeMeta_app;
      [by apply lor_ModeDir_uint32 | unfold is_int64; cbn; lia | done]. }
  split.
  - unfold Open. rewrite loadFile_missing by done.
    unfold Get. cbn [dirs]. by rewrite lookup_insert_eq, Hdec.
  - unfold Stat. rewrite loadFile_missing by done.
    unfold Get. cbn [dirs]. by rewrite lookup_insert_eq, Hdec.
Qed.

Lemma Mkdir_then_Open_and_Stat_witness :
  exists fs',
    Mkdir New "dir" 493 7 = (None, fs') /\
    Stat fs' "dir"
    = Returns (Ok {| fi_name := "dir"; fi_size := 0;
                     fi_mode := 2147484141; fi_modTime := 7;
                     fi_isDir := true |}).
Proof.
  destruct (Mkdir_then_Open_and_Stat New "dir" 493 7)
    as (fs' & HM & _ & _ & HS).
  - split; vm_compute; [lia | discriminate].
  - unfold is_uint32. lia.
  - unfold is_int64. lia.
  - reflexivity.
  - exists fs'. split; [exact HM | exact HS].
Defined.

(** After a successful write through an open handle whose mode is a
    uint32, [Stat] of the handle's path reports what the handle's own
    [Stat] reports: the length of the unread bytes as size, the clock of
    the write as modification time, the handle's mode and directory
    flag. *)
Theorem Stat_after_Write (f g : bboltFile) (p : list byte) (now : Z)
    (fs fs' : BBolt) (n : nat) :
  closed f = false -> Buffer_ok (buffer f) ->
  is_uint32 (Mode (meta f)) -> is_int64 now ->
  bboltFile_Write f p now fs = ((n, None), g, fs') ->
  Stat fs' (name f) = Returns (bboltFile_Stat g) /\
  bboltFile_Stat g
  = Ok {| fi_name := Base (name f);
          fi_size := Z.of_nat (length (Bytes (buffer f) ++ p));
          fi_mode := Mode (meta f); fi_modTime := now;
          fi_isDir := IsDir (meta f) |}.
Proof.
  intros Hc Hok Hmode Hnow. unfold bboltFile_Write. rewrite Hc.
  cbn [Buffer_Write set_buffer touch buffer name meta].
  pose proof (Bytes_Buffer_Write (buffer f) p Hok) as HB.
  cbn [Buffer_Write snd] in HB. rewrite Len_Bytes, HB.
  destruct (saveFile fs (name f) _ _) as [e fs0] eqn:HS.
  intros [= _ -> <- <-].
  apply saveFile_inv in HS as [(_ & -> & _ & Hfit) | (? & _)]; [| done].
  split; [| done].
  unfold Stat, bboltFile_Stat. cbn [name meta].
  erewrite loadFile_saved by (cbn; apply lookup_insert_eq).
  rewrite decodeMeta_encodeMeta_app; [done | done | | done].
  cbn [Size]. rewrite length_app, length_encodeMeta in Hfit.
  unfold MaxValueSize in Hfit. unfold is_int64. lia.
Qed.

Lemma Stat_after_Write_witness :
  let f := {| name := "a.txt"; meta := mkMeta 438 0 1 false;
              buffer := NewBuffer []; offset := 0; closed := false |} in
  exists g fs',
    bboltFile_Write f (list_byte_of_string "hello") 9 New
    = ((5%nat, None), g, fs') /\
    Stat fs' "a.txt"
    = Returns (Ok {| fi_name := "a.txt"; fi_size := 5; fi_mode := 438;
                     fi_modTime := 9; fi_isDir := false |}).
Proof.
  intros f.
  pose (w := list_byte_of_string "hello").
  pose (g := snd (fst (bboltFile_Write f w 9 New))).
  pose (fs' := snd (bboltFile_Write f w 9 New)).
  assert (HW : bboltFile_Write f w 9 New = ((5%nat, None), g, fs'))
    by (vm_compute; reflexivity).
  destruct (Stat_after_Write f g w 9 New fs' 5) as [H1 H2].
  - reflexivity.
  - unfold Buffer_ok. cbn. lia.
  - unfold is_uint32. cbn. lia.
  - unfold is_int64. lia.
  - exact HW.
  - exists g, fs'. split; [exact HW |].
    change "a.txt"%string with (name f). rewrite H1, H2. reflexivity.
Defined.

(** ** Chmod and Chtimes *)

Lemma update_meta_entry (fs : BBolt) (p : string) (v : list byte)
    (m : fileMeta) :
  reachable fs -> files fs !! p = Some v -> meta_typed m ->
  exists fs',
    saveFile fs p (drop metaLen v) m = (None, fs') /\
    loadFile fs p = Returns (drop metaLen v, decodeMeta v, None) /\
    loadFile fs' p = Returns (drop metaLen v, m, None) /\
    (forall k, k <> p -> files fs' !! k = files fs !! k) /\
    dirs fs' = dirs fs.
Proof.
  intros Hreach Hv (Hmode & Hsize & Htime).
  destruct (reachable_files_inv fs Hreach p v Hv) as [Hlen _].
  destruct (reachable_stored_ok fs Hreach) as [Hf _].
  destruct (Hf p v Hv) as [Hk Hfit].
  eexists. split.
  { apply saveFile_accepts; [done |].
    rewrite length_app, length_encodeMeta, length_drop. lia. }
  split; [by apply loadFile_entry |]. split; [| split; [| done]].
  - rewrite (loadFile_saved _ p m (drop metaLen v))
      by (cbn; apply lookup_insert_eq).
    by rewrite decodeMeta_encodeMeta_app.
  - intros k Hne. cbn [files]. by rewrite lookup_insert_ne.
Qed.

(** On a reachable store, [Chmod] of a path that holds a file succeeds
    for every uint32 mode: afterwards [Stat] reports that mode with the
    size, modification time and directory flag it reported before, the
    payload is the same, and no other entry changes. *)
Theorem Chmod_then_Stat (fs : BBolt) (p : string) (v : list byte) (mode : Z) :
  reachable fs -> files fs !! p = Some v -> is_uint32 mode ->
  let m := decodeMeta v in
  exists fs',
    Chmod fs p mode = Returns (None, fs') /\
    Stat fs p = Returns (Ok (info_of (Base p) m)) /\
    Stat fs' p
    = Returns (Ok {| fi_name := Base p; fi_size := Size m; fi_mode := mode;
                     fi_modTime := ModTime m; fi_isDir := IsDir m |}) /\
    (exists m', loadFile fs' p = Returns (drop metaLen v, m', None)) /\
    (forall k, k <> p -> files fs' !! k = files fs !! k) /\
    dirs fs' = dirs fs.
Proof.
  intros Hreach Hv Hmode m.
  pose proof (decodeMeta_typed v) as (_ & Hsize & Htime). fold m in Hsize, Htime.
  destruct (update_meta_entry fs p v
              {| Mode := mode; Size := Size m; ModTime := ModTime m;
                 IsDir := IsDir m |} Hreach Hv)
    as (fs' & HS & HL & HL' & Hframe & Hdirs); [done |].
  exists fs'. unfold Chmod, Stat. rewrite HL, HL'. fold m. rewrite HS.
  split; [done |]. split; [done |]. split; [done |].
  split; [by eauto |]. done.
Qed.

Lemma Chmod_then_Stat_witness :
  let fs := snd (Create New "chmod.txt" 5) in
  exists fs',
    Chmod fs "chmod.txt" 256 = Returns (None, fs') /\
    Stat fs' "chmod.txt"
    = Returns (Ok {| fi_name := "chmod.txt"; fi_size := 0; fi_mode := 256;
                     fi_modTime := 5; fi_isDir := false |}).
Proof.
  intros fs.
  destruct (Chmod_then_Stat fs "chmod.txt"
              (encodeMeta (mkMeta 438 0 5 false)) 256)
    as (fs' & HC & _ & HS & _).
  - apply reach_Create, reach_New.
  - vm_compute. reflexivity.
  - unfold is_uint32. lia.
  - exists fs'. split; [exact HC |]. rewrite HS. vm_compute. reflexivity.
Defined.

(** On a reachable store, [Chtimes] of a path that holds a file succeeds
    for every int64 modification time and whatever the access time:
    afterwards [Stat] reports that modification time with the size, mode
    and directory flag it reported before, the payload is the same, and no
    other entry changes. *)
Theorem Chtimes_then_Stat (fs : BBolt) (p : string) (v : list byte)
    (atime mtime : Z) :
  reachable fs -> files fs !! p = Some v -> is_int64 mtime ->
  let m := decodeMeta v in
  exists fs',
    Chtimes fs p atime mtime = Returns (None, fs') /\
    Stat fs' p
    = Returns (Ok {| fi_name := Base p; fi_size := Size m;
                     fi_mode := Mode m; fi_modTime := mtime;
                     fi_isDir := IsDir m |}) /\
    (exists m', loadFile fs' p = Returns (drop metaLen v, m', None)) /\
    (forall k, k <> p -> files fs' !! k = files fs !! k) /\
    dirs fs' = dirs fs.
Proof.
  intros Hreach Hv Hmtime m.
  pose proof (decodeMeta_typed v) as (Hmode & Hsize & _). fold m in Hmode, Hsize.
  destruct (update_meta_entry fs p v
              {| Mode := Mode m; Size := Size m; ModTime := mtime;
                 IsDir := IsDir m |} Hreach Hv)
    as (fs' & HS & HL & HL' & Hframe & Hdirs); [done |].
  exists fs'. unfold Chtimes, Stat. rewrite HL, HL'. fold m. rewrite HS.
  split; [done |]. split; [done |]. split; [by eauto |]. done.
Qed.

Lemma Chtimes_then_Stat_witness :
  let fs := snd (Create New "chmod.txt" 5) in
  exists fs',
    Chtimes fs "chmod.txt" 1 (-3) = Returns (None, fs') /\
    Stat fs' "chmod.txt"
    = Returns (Ok {| fi_name := "chmod.txt"; fi_size := 0; fi_mode := 438;
                     fi_modTime := -3; fi_isDir := false |}).
Proof.
  intros fs.
  destruct (Chtimes_then_Stat fs "chmod.txt"
              (encodeMeta (mkMeta 438 0 5 false)) 1 (-3))
    as (fs' & HC & HS & _).
  - apply reach_Create, reach_New.
  - vm_compute. reflexivity.
  - unfold is_int64. lia.
  - exists fs'. split; [exact HC |]. rewrite HS. vm_compute. reflexivity.
Defined.

(** [Chmod] and [Chtimes] look in the file collection only: for a path
    that holds no file, a directory included, both fail with the
    not-found error and leave the store as it was. *)
Theorem Chmod_Chtimes_need_a_file (fs : BBolt) (p : string)
    (mode atime mtime : Z) :
  files fs !! p = None ->
  Chmod fs p mode = Returns (Some ErrNotExist, fs) /\
  Chtimes fs p atime mtime = Returns (Some ErrNotExist, fs).
Proof.
  intros Hnone. unfold Chmod, Chtimes. by rewrite loadFile_missing.
Qed.

Lemma Chmod_Chtimes_need_a_file_witness :
  let fs := snd (Mkdir New "dir" 493 1) in
  (exists d, Open fs "dir" = Returns (Ok (ADir d))) /\
  Chmod fs "dir" 448 = Returns (Some ErrNotExist, fs).
Proof.
  intros fs. split; [eexists; vm_compute; reflexivity |].
  apply (Chmod_Chtimes_need_a_file fs "dir" 448 0 0). reflexivity.
Defined.

(** ** Reading, then writing *)

Lemma Buffer_Read_Bytes (b : Buffer) (n : nat) :
  Buffer_ok b ->
  Bytes (snd (Buffer_Read b n)) = drop n (Bytes b) /\
  Buffer_ok (snd (Buffer_Read b n)).
Proof.
  unfold Buffer_ok, Buffer_Read, Bytes. intros Hok.
  case_decide as Hempty; cbn [snd buf off].
  - rewrite (drop_ge (buf b)) by lia. rewrite drop_nil. cbn. split; [by rewrite drop_nil | lia].
  - rewrite length_take, length_drop, drop_drop. split; [| lia].
    destruct (Nat.le_ge_cases n (length (buf b) - off b)) as [Hle | Hge].
    + by rewrite Nat.min_l by done.
    + rewrite Nat.min_r by done. rewrite !drop_ge by lia. done.
Qed.

(** A write persists the unread bytes only. When a file is opened, [k]
    bytes are read and [w] is then written through the same handle, the
    stored payload becomes the old payload without its first [k] bytes,
    followed by [w]: what the read consumed is gone from the store. *)
Theorem Write_after_Read_drops_consumed (fs fs' : BBolt) (p : string)
    (v w : list byte) (k n : nat) (now : Z) (g g2 : bboltFile) :
  files fs !! p = Some v -> (metaLen <= length v)%nat ->
  Open fs p = Returns (Ok (AFile g)) ->
  bboltFile_Write (snd (bboltFile_Read g k)) w now fs = ((n, None), g2, fs') ->
  exists m,
    loadFile fs' p = Returns (drop k (drop metaLen v) ++ w, m, None).
Proof.
  intros Hv Hlen HO HW. unfold Open in HO.
  rewrite (loadFile_entry fs p v) in HO by done.
  injection HO as <-.
  unfold bboltFile_Read in HW. cbn [closed buffer] in HW.
  destruct (Buffer_Read (NewBuffer (drop metaLen v)) k) as [r b] eqn:HR.
  destruct (Buffer_Read_Bytes (NewBuffer (drop metaLen v)) k) as [HB Hok].
  { unfold Buffer_ok. cbn. lia. }
  rewrite HR in HB, Hok. cbn [snd] in HB, Hok, HW.
  rewrite Bytes_NewBuffer in HB.
  unfold bboltFile_Write in HW.
  cbn [closed set_buffer Buffer_Write buffer touch name meta] in HW.
  pose proof (Bytes_Buffer_Write b w Hok) as HBW.
  cbn [Buffer_Write snd] in HBW. rewrite HBW, HB in HW.
  destruct (saveFile fs p _ _) as [e fs0] eqn:HS.
  injection HW as _ -> _ <-.
  apply saveFile_inv in HS as [(_ & -> & _) | (? & _)]; [| done].
  eexists. by erewrite loadFile_saved by (cbn; apply lookup_insert_eq).
Qed.

Lemma Write_after_Read_drops_consumed_witness :
  let f := {| name := "a.txt"; meta := mkMeta 438 0 1 false;
              buffer := NewBuffer []; offset := 0; closed := false |} in
  let fs := snd (bboltFile_Write f (list_byte_of_string "hello") 2 New) in
  exists g g2 fs' m,
    Open fs "a.txt" = Returns (Ok (AFile g)) /\
    bboltFile_Write (snd (bboltFile_Read g 3)) (list_byte_of_string "!") 3 fs
    = ((1%nat, None), g2, fs') /\
    loadFile fs' "a.txt" = Returns (list_byte_of_string "lo!", m, None).
Proof.
  intros f fs.
  pose (v := encodeMeta (mkMeta 438 5 2 false) ++ list_byte_of_string "hello").
  pose (g := {| name := "a.txt"; meta := mkMeta 438 5 2 false;
                buffer := NewBuffer (list_byte_of_string "hello");
                offset := 0; closed := false |}).
  pose (r := bboltFile_Write (snd (bboltFile_Read g 3))
               (list_byte_of_string "!") 3 fs).
  assert (HO : Open fs "a.txt" = Returns (Ok (AFile g)))
    by (vm_compute; reflexivity).
  assert (HW : bboltFile_Write (snd (bboltFile_Read g 3))
                 (list_byte_of_string "!") 3 fs
               = ((1%nat, None), snd (fst r), snd r))
    by (vm_compute; reflexivity).
  destruct (Write_after_Read_drops_consumed fs (snd r) "a.txt" v
              (list_byte_of_string "!") 3 1 3 g (snd (fst r)))
    as [m Hm].
  - vm_compute. reflexivity.
  - vm_compute. lia.
  - exact HO.
  - exact HW.
  - exists g, (snd (fst r)), (snd r), m.
    split; [exact HO |]. split; [exact HW | exact Hm].
Defined.

(** ** OpenFile *)

(** With any of [O_CREATE], [O_RDWR] and [O_WRONLY] in the flags,
    [OpenFile] of an accepted path is [Create]: it returns a handle on an
    empty file and the stored entry has an empty payload, whatever the
    path held before. *)
Theorem OpenFile_write_intent_truncates (fs : BBolt) (p : string)
    (flag perm now : Z) :
  Z.land flag (Z.lor (Z.lor O_CREATE O_RDWR) O_WRONLY) <> 0 ->
  valid_key p -> is_int64 now ->
  exists f fs',
    OpenFile fs p flag perm now = (Returns (Ok (AFile f)), fs') /\
    Create fs p now = (Ok (AFile f), fs') /\
    Bytes (buffer f) = [] /\
    loadFile fs' p = Returns ([], meta f, None).
Proof.
  intros Hflag Hk Hnow. unfold OpenFile.
  destruct (Z.eqb_spec (Z.land flag (Z.lor (Z.lor O_CREATE O_RDWR) O_WRONLY)) 0)
    as [? | _]; [done |]. cbn [negb].
  unfold Create.
  rewrite saveFile_accepts;
    [| done | rewrite length_app, length_encodeMeta; cbn; unfold MaxValueSize; lia].
  eexists _, _. split; [reflexivity |]. split; [reflexivity |].
  split; [done |]. cbn [meta].
  rewrite (loadFile_saved _ p (mkMeta 438 0 now false) [])
    by (cbn; apply lookup_insert_eq).
  rewrite decodeMeta_encodeMeta_app;
    [done | unfold is_uint32; cbn; lia | unfold is_int64; cbn; lia | done].
Qed.

Lemma OpenFile_write_intent_truncates_witness :
  let f0 := {| name := "a.txt"; meta := mkMeta 438 0 1 false;
               buffer := NewBuffer []; offset := 0; closed := false |} in
  let fs := snd (bboltFile_Write f0 (list_byte_of_string "hello") 2 New) in
  exists f fs',
    OpenFile fs "a.txt" O_RDWR 0 3 = (Returns (Ok (AFile f)), fs') /\
    loadFile fs' "a.txt" = Returns ([], meta f, None).
Proof.
  intros f0 fs.
  destruct (OpenFile_write_intent_truncates fs "a.txt" O_RDWR 0 3)
    as (f & fs' & HO & _ & _ & HL).
  - vm_compute. discriminate.
  - split; vm_compute; [lia | discriminate].
  - unfold is_int64. lia.
  - exists f, fs'. split; [exact HO | exact HL].
Defined.

(** Without any of the three flags [OpenFile] is [Open] and leaves the
    store alone. *)
Lemma OpenFile_read_only (fs : BBolt) (p : string) (flag perm now : Z) :
  Z.land flag (Z.lor (Z.lor O_CREATE O_RDWR) O_WRONLY) = 0 ->
  OpenFile fs p flag perm now = (Open fs p, fs).
Proof. intros Hflag. unfold OpenFile. by rewrite Hflag. Qed.

(** ** Decoding arbitrary bytes *)

Lemma binary_Read_take (r : list byte) (w n : nat) :
  binary_Read (take (w + n) r) w
  = (fst (binary_Read r w), take n (snd (binary_Read r w))).
Proof.
  unfold binary_Read. rewrite length_take.
  destruct (decide (w <= length r)%nat) as [Hle | Hgt].
  - rewrite decide_True by lia. cbn [fst snd].
    rewrite take_take, Nat.min_l by lia.
    by rewrite skipn_firstn_comm, Nat.add_comm, Nat.add_sub.
  - rewrite decide_False by lia. cbn [fst snd]. by rewrite take_nil.
Qed.

(** [decodeMeta] looks at the first 21 bytes only: whatever follows the
    header, payload included, has no influence on the record. *)
Theorem decodeMeta_reads_header_only (v : list byte) :
  decodeMeta v = decodeMeta (take metaLen v).
Proof.
  unfold decodeMeta.
  change metaLen with (4 + 17)%nat. rewrite binary_Read_take.
  destruct (binary_Read v 4) as [mode r1]. cbn [fst snd].
  change 17%nat with (8 + 9)%nat. rewrite binary_Read_take.
  destruct (binary_Read r1 8) as [size r2]. cbn [fst snd].
  change 9%nat with (8 + 1)%nat. rewrite binary_Read_take.
  destruct (binary_Read r2 8) as [mtime r3]. cbn [fst snd].
  change 1%nat with (1 + 0)%nat at 2. rewrite binary_Read_take.
  by destruct (binary_Read r3 1) as [isdir r4].
Qed.

Lemma le_split_int64_of_uint64 (u : Z) :
  le_split 8 (int64_of_uint64 u) = le_split 8 u.
Proof.
  apply le_combine_inj; [by rewrite !length_le_split |].
  rewrite !le_combine_split. unfold int64_of_uint64.
  destruct (u <? 2 ^ 63); [done |].
  change (Z.of_nat 8 * 8) with 64.
  rewrite <- (Z.mul_1_l (2 ^ 64)) at 1.
  replace (u - 1 * 2 ^ 64) with (u + (-1) * 2 ^ 64) by lia.
  by rewrite Z.mod_add.
Qed.

Lemma le_split_le_combine_take (n : nat) (r : list byte) :
  (n <= length r)%nat -> le_split n (le_combine (take n r)) = take n r.
Proof.
  intros Hn. rewrite <- (split_le_combine (take n r)) at 2.
  by rewrite length_take, Nat.min_l.
Qed.

(** A header re-encodes to itself up to its flag byte. For 21 bytes [h],
    encoding the record decoded from [h] gives the first 20 bytes of [h]
    followed by 0 when the last byte of [h] is 0 and by 1 otherwise: the
    headers with flag byte 0 or 1 are exactly the encodings. *)
Theorem encodeMeta_decodeMeta_header (h : list byte) :
  length h = metaLen ->
  encodeMeta (decodeMeta h)
  = take 20 h
    ++ [if le_combine (drop 20 h) =? 0 then Byte.x00 else Byte.x01].
Proof.
  intros Hlen. rewrite encodeMeta_unfold. unfold decodeMeta, binary_Read.
  rewrite decide_True by (rewrite Hlen; cbn; lia).
  rewrite decide_True by (rewrite length_drop, Hlen; cbn; lia).
  rewrite decide_True by (rewrite !length_drop, Hlen; cbn; lia).
  rewrite decide_True by (rewrite !length_drop, Hlen; cbn; lia).
  cbn [Mode Size ModTime IsDir default fmap option_fmap option_map].
  unfold id.
  rewrite !le_split_int64_of_uint64.
  rewrite !le_split_le_combine_take
    by (rewrite ?length_drop, Hlen; cbn; lia).
  rewrite !drop_drop. cbn [Nat.add].
  rewrite (take_ge (drop 20 h)) by (rewrite length_drop, Hlen; cbn; lia).
  rewrite <- (take_drop 4 (take 20 h)) at 1.
  rewrite take_take, Nat.min_l by lia.
  rewrite <- app_assoc. f_equal.
  rewrite skipn_firstn_comm. cbn [Nat.sub].
  rewrite <- (take_drop 8 (take 16 (drop 4 h))).
  rewrite take_take, Nat.min_l by lia.
  rewrite <- app_assoc. f_equal.
  rewrite skipn_firstn_comm, drop_drop. cbn [Nat.sub Nat.add].
  f_equal.
  by destruct (le_combine (drop 20 h) =? 0).
Qed.

Lemma encodeMeta_decodeMeta_header_witness :
  let h := le_split 20 12345 ++ [Byte.x07] in
  encodeMeta (decodeMeta h) = le_split 20 12345 ++ [Byte.x01].
Proof.
  intros h. rewrite (encodeMeta_decodeMeta_header h); reflexivity.
Defined.

(** ** Listing a directory *)

Lemma readDir_loop_eq (prefix : string) (count : Z)
    (c : list (string * list byte)) (fis : list fileInfo) :
  count <= 0 \/ Z.of_nat (length fis) < count ->
  readDir_loop prefix count c fis
  = limit count (fis ++ omap (listed prefix) c).
Proof.
  revert fis. induction c as [| [k v] c IH]; intros fis Hfis.
  - cbn [readDir_loop omap list_omap]. rewrite app_nil_r. unfold limit.
    destruct (Z.ltb_spec 0 count); [| done]. rewrite take_ge; [done | lia].
  - cbn [readDir_loop omap list_omap]. unfold listed at 1. cbn [fst snd].
    destruct (HasPrefix k prefix); cbn [negb]; [| by apply IH].
    destruct (String.eqb (TrimPrefix k prefix) "" || Contains _ "/");
      [by apply IH |].
    set (info := info_of (TrimPrefix k prefix) (decodeMeta v)).
    destruct (Z.ltb_spec 0 count) as [Hpos | Hnonpos]; cbn [andb].
    + destruct (Z.leb_spec count (Z.of_nat (length (fis ++ [info]))))
        as [Hfull | Hroom].
      * unfold limit. destruct (Z.ltb_spec 0 count); [| lia].
        rewrite length_app in Hfull. cbn in Hfull.
        replace (fis ++ info :: omap (listed prefix) c)
          with ((fis ++ [info]) ++ omap (listed prefix) c)
          by (by rewrite <- app_assoc).
        rewrite take_app_length'; [done |].
        rewrite length_app. cbn. lia.
      * rewrite IH by (by right). by rewrite <- app_assoc.
    + rewrite IH by (left; lia). by rewrite <- app_assoc.
Qed.

Lemma readDir_eq (fs : BBolt) (dir : string) (count : Z) :
  readDir fs dir count
  = (limit count
       (omap (listed (readDir_prefix dir)) (cursor_entries (files fs))),
     None).
Proof.
  unfold readDir. rewrite readDir_loop_eq; [done |].
  destruct (Z.le_gt_cases count 0); [by left | right; cbn; lia].
Qed.

(** [readDir] never fails. With a positive [count] it returns the first
    [count] entries of the unbounded listing (all of them when there are
    fewer), so never more than [count]; with a zero or negative [count] it
    returns the unbounded listing. *)
Theorem readDir_count_limit (fs : BBolt) (dir : string) (count : Z) :
  let all := fst (readDir fs dir 0) in
  snd (readDir fs dir count) = None /\
  (0 < count ->
   fst (readDir fs dir count) = take (Z.to_nat count) all /\
   Z.of_nat (length (fst (readDir fs dir count))) <= count) /\
  (count <= 0 -> fst (readDir fs dir count) = all).
Proof.
  intros all. unfold all. rewrite !readDir_eq. cbn [fst snd].
  split; [done |]. unfold limit. cbn [Z.ltb Z.compare]. split.
  - intros Hpos. destruct (Z.ltb_spec 0 count); [| lia].
    split; [done |]. rewrite length_take. lia.
  - intros Hle. by destruct (Z.ltb_spec 0 count); [lia |].
Qed.

(** *** Prefixes and names *)

Lemma String_append_cons (a : ascii) (p r : string) :
  String.append (String a p) r = String a (String.append p r).
Proof. reflexivity. Qed.

Lemma String_append_nil (r : string) : String.append "" r = r.
Proof. reflexivity. Qed.

Lemma String_prefix_append (p r : string) :
  String.prefix p (String.append p r) = true.
Proof.
  induction p as [| a p IH];
    rewrite ?String_append_cons, ?String_append_nil; cbn; [by destruct r |].
  by destruct (ascii_dec a a).
Qed.

Lemma String_prefix_inv (p k : string) :
  String.prefix p k = true -> exists r, k = String.append p r.
Proof.
  revert k. induction p as [| a p IH]; intros k; [by exists k |].
  destruct k as [| b k]; cbn; [done |].
  destruct (ascii_dec a b) as [<- | ?]; [| done].
  intros [r ->]%IH. exists r. by rewrite String_append_cons.
Qed.

Lemma string_drop_append (p r : string) :
  string_drop (String.length p) (String.append p r) = r.
Proof.
  induction p as [| a p IH];
    rewrite ?String_append_cons, ?String_append_nil; cbn; [by destruct r | done].
Qed.

Lemma TrimPrefix_append (p r : string) : TrimPrefix (String.append p r) p = r.
Proof.
  unfold TrimPrefix, HasPrefix.
  by rewrite String_prefix_append, string_drop_append.
Qed.

Lemma String_append_inj (p r1 r2 : string) :
  String.append p r1 = String.append p r2 -> r1 = r2.
Proof.
  induction p as [| a p IH];
    rewrite ?String_append_cons, ?String_append_nil; [done |].
  intros [= H]. by apply IH.
Qed.

Lemma String_le_append (p a b : string) :
  String.le (String.append p a) (String.append p b) <-> String.le a b.
Proof.
  unfold String.le, String.leb.
  induction p as [| c p IH];
    rewrite ?String_append_cons, ?String_append_nil; cbn; [done |].
  by rewrite Ascii_compare_refl.
Qed.

Lemma listed_Some (prefix : string) (k : string) (v : list byte)
    (info : fileInfo) :
  listed prefix (k, v) = Some info <->
  exists nm,
    k = String.append prefix nm /\ nm <> ""%string /\
    Contains nm "/" = false /\ info = info_of nm (decodeMeta v).
Proof.
  unfold listed. cbn [fst snd]. split.
  - destruct (HasPrefix k prefix) eqn:Hpre; [| done].
    apply String_prefix_inv in Hpre as [r ->].
    rewrite TrimPrefix_append.
    destruct (String.eqb_spec r ""); [done |]. cbn [orb].
    destruct (Contains r "/") eqn:Hc; [done |].
    intros [= <-]. by exists r.
  - intros (nm & -> & Hne & Hc & ->).
    unfold HasPrefix. rewrite String_prefix_append, TrimPrefix_append, Hc.
    by destruct (String.eqb_spec nm "").
Qed.

Lemma elem_of_cursor_entries (b : bucket) (k : string) (v : list byte) :
  (k, v) ∈ cursor_entries b <-> b !! k = Some v.
Proof.
  unfold cursor_entries. rewrite list_elem_of_fmap. split.
  - intros (k' & [= -> ->] & Hin).
    apply elem_of_cursor_keys in Hin as [v Hv]. by rewrite Hv.
  - intros Hv. exists k. rewrite Hv. split; [done |].
    apply elem_of_cursor_keys. by eexists.
Qed.

(** The unbounded listing of a directory holds one entry for each file
    key that extends the directory's prefix by a non-empty name without a
    slash, and nothing else; the entry carries that name and the size,
    mode, time and flag decoded from the stored header. Files deeper in
    the tree and the directory's own key are not listed. *)
Theorem readDir_lists_children (fs : BBolt) (dir : string) (info : fileInfo) :
  info ∈ fst (readDir fs dir 0) <->
  exists nm v,
    files fs !! String.append (readDir_prefix dir) nm = Some v /\
    nm <> ""%string /\ Contains nm "/" = false /\
    info = info_of nm (decodeMeta v).
Proof.
  rewrite readDir_eq. cbn [fst]. unfold limit. cbn [Z.ltb Z.compare].
  rewrite list_elem_of_omap. split.
  - intros ([k v] & Hin & (nm & -> & Hne & Hc & ->)%listed_Some).
    apply elem_of_cursor_entries in Hin. by exists nm, v.
  - intros (nm & v & Hv & Hne & Hc & ->).
    exists (String.append (readDir_prefix dir) nm, v). split.
    + by apply elem_of_cursor_entries.
    + apply listed_Some. by exists nm.
Qed.

(** *** Order of a listing *)

Lemma cursor_keys_NoDup (b : bucket) : NoDup (cursor_keys b).
Proof.
  unfold cursor_keys. rewrite merge_sort_Permutation.
  apply NoDup_fst_map_to_list.
Qed.

Lemma listed_names_sorted (prefix : string) (b : bucket) (ks : list string) :
  StronglySorted String.le ks -> NoDup ks ->
  StronglySorted (fun a c => String.le a c /\ a <> c)
    (fi_name <$>
       omap (listed prefix) ((fun k => (k, default [] (b !! k))) <$> ks)).
Proof.
  induction 1 as [| k ks Hsorted IH Hk]; intros Hnd; [constructor |].
  apply NoDup_cons in Hnd as [Hnotin Hnd].
  cbn [fmap list_fmap omap list_omap].
  destruct (listed prefix (k, default [] (b !! k))) as [info |] eqn:Hl;
    [| by apply IH].
  cbn [fmap list_fmap]. constructor; [by apply IH |].
  apply listed_Some in Hl as (nm & -> & _ & _ & ->). cbn [fi_name info_of].
  apply Forall_forall. intros nm' Hin.
  apply list_elem_of_fmap in Hin as (info' & -> & Hin).
  apply list_elem_of_omap in Hin as ([k' v'] & Hin & Hl').
  apply list_elem_of_fmap in Hin as (k'' & [= -> ->] & Hin).
  apply listed_Some in Hl' as (nm' & -> & _ & _ & ->). cbn [fi_name info_of].
  split.
  - eapply String_le_append. by eapply Forall_forall in Hk.
  - intros ->. done.
Qed.

(** A listing is in the byte order of the names and holds no name
    twice. *)
Theorem readDir_sorted_by_name (fs : BBolt) (dir : string) (count : Z) :
  let names := fi_name <$> fst (readDir fs dir count) in
  StronglySorted String.le names /\ NoDup names.
Proof.
  intros names.
  assert (H : StronglySorted (fun a c => String.le a c /\ a <> c) names).
  { unfold names. rewrite readDir_eq. cbn [fst].
    pose proof (listed_names_sorted (readDir_prefix dir) (files fs)
                  (cursor_keys (files fs)) (cursor_keys_sorted _)
                  (cursor_keys_NoDup _)) as Hall.
    fold (cursor_entries (files fs)) in Hall.
    unfold limit. destruct (0 <? count); [| done].
    rewrite fmap_take.
    rewrite <- (take_drop (Z.to_nat count)
                 (fi_name <$> omap _ (cursor_entries (files fs)))) in Hall.
    by apply StronglySorted_app_1_l in Hall. }
  clear -H. induction H as [| a l Hl [IH1 IH2] Ha]; [split; constructor |].
  split.
  - constructor; [done |]. eapply Forall_impl; [exact Ha |]. by intros ? [? _].
  - constructor; [| done]. intros Hin.
    eapply Forall_forall in Ha as [_ ?]; done.
Qed.

(** *** The directory prefix *)

Lemma string_drop_split (n : nat) (s : string) :
  exists t, s = String.append t (string_drop n s).
Proof.
  revert s. induction n as [| n IH]; intros s; [by exists ""%string |].
  destruct s as [| a s]; [by exists ""%string |].
  destruct (IH s) as [t Ht]. exists (String a t).
  rewrite String_append_cons. cbn [string_drop]. by rewrite <- Ht.
Qed.

Lemma String_length_append (a b : string) :
  String.length (String.append a b) = (String.length a + String.length b)%nat.
Proof.
  induction a as [| c a IH];
    rewrite ?String_append_cons, ?String_append_nil; cbn; [done | by rewrite IH].
Qed.

(** The prefix whose extensions [readDir] lists: empty for the empty
    directory name, the name itself when it ends with a slash, the name
    followed by a slash otherwise. *)
Lemma readDir_prefix_cases (dir : string) :
  (dir = ""%string /\ readDir_prefix dir = ""%string)
  \/ (exists s, dir = String.append s "/" /\ readDir_prefix dir = dir)
  \/ (dir <> ""%string /\ HasSuffix dir "/" = false
      /\ readDir_prefix dir = String.append dir "/").
Proof.
  unfold readDir_prefix.
  destruct (String.eqb_spec dir "") as [-> | Hne]; [by left |].
  right. destruct (HasSuffix dir "/") eqn:Hs; cbn [negb andb].
  - left. unfold HasSuffix in Hs. apply andb_true_iff in Hs as [_ Hs].
    apply String.eqb_eq in Hs.
    destruct (string_drop_split (String.length dir - String.length "/") dir)
      as [t Ht].
    rewrite Hs in Ht. by exists t.
  - by right.
Qed.

Lemma readDir_trailing_slash (fs : BBolt) (dir : string) (count : Z) :
  dir <> ""%string -> HasSuffix dir "/" = false ->
  readDir fs (String.append dir "/") count = readDir fs dir count.
Proof.
  intros Hne Hs. unfold readDir. f_equal. f_equal.
  unfold readDir_prefix at 2. rewrite Hs.
  destruct (String.eqb_spec dir ""); [done |]. cbn [negb andb].
  unfold readDir_prefix, HasSuffix.
  rewrite String_length_append. cbn [String.length].
  replace (String.length dir + 1 - 1)%nat with (String.length dir) by lia.
  rewrite string_drop_append, String.eqb_refl.
  by destruct (1 <=? String.length dir + 1)%nat eqn:E;
    [| apply Nat.leb_gt in E; lia].
Qed.

(** *** Names in a listing and in Stat *)

Lemma list_ascii_of_string_append (a b : string) :
  list_ascii_of_string (String.append a b)
  = list_ascii_of_string a ++ list_ascii_of_string b.
Proof.
  induction a as [| c a IH];
    rewrite ?String_append_cons, ?String_append_nil; cbn; [done | by rewrite IH].
Qed.

Lemma Contains_slash_false (nm : string) :
  Contains nm "/" = false ->
  Forall (fun a => is_sep a = false) (list_ascii_of_string nm).
Proof.
  induction nm as [| a nm IH]; [constructor |].
  cbn [Contains String.prefix list_ascii_of_string].
  destruct (ascii_dec "/" a) as [<- | Hne]; [by destruct nm |].
  cbn [orb]. intros Hc. constructor; [| by apply IH].
  unfold is_sep. apply Ascii.eqb_neq. congruence.
Qed.

Lemma until_sep_app (l r : list ascii) :
  Forall (fun a => is_sep a = false) l ->
  (r = [] \/ exists r', r = "/"%char :: r') ->
  until_sep (l ++ r) = l.
Proof.
  intros Hl Hr. induction Hl as [| a l Ha Hl IH]; cbn.
  - by destruct Hr as [-> | [r' ->]].
  - by rewrite Ha, IH.
Qed.

(** The last element of a path that ends in a name without a slash,
    behind nothing or behind a prefix ending in a slash, is that name. *)
Lemma Base_append (prefix nm : string) :
  (prefix = ""%string \/ exists s, prefix = String.append s "/") ->
  nm <> ""%string -> Contains nm "/" = false ->
  Base (String.append prefix nm) = nm.
Proof.
  intros Hprefix Hne Hc. unfold Base.
  destruct (String.eqb_spec (String.append prefix nm) "") as [Hempty | _].
  { apply (f_equal String.length) in Hempty.
    rewrite String_length_append in Hempty. destruct nm; [done |].
    cbn in Hempty. lia. }
  rewrite list_ascii_of_string_append, rev_app_distr.
  apply Contains_slash_false in Hc.
  assert (Hrev : Forall (fun a => is_sep a = false)
                   (rev (list_ascii_of_string nm)))
    by (by apply Forall_rev).
  assert (Hnm : rev (list_ascii_of_string nm) <> []).
  { intros H%(f_equal (@length ascii)). rewrite length_rev in H.
    destruct nm; [done |]. cbn in H. lia. }
  assert (Hr : rev (list_ascii_of_string prefix) = []
               \/ exists r', rev (list_ascii_of_string prefix) = "/"%char :: r').
  { destruct Hprefix as [-> | [s ->]]; [by left | right].
    rewrite list_ascii_of_string_append, rev_app_distr. cbn. by eexists. }
  assert (Hdrop : drop_seps (rev (list_ascii_of_string nm)
                             ++ rev (list_ascii_of_string prefix))
                  = rev (list_ascii_of_string nm)
                    ++ rev (list_ascii_of_string prefix)).
  { destruct Hrev as [| a l Ha Hl]; [done |]. cbn. by rewrite Ha. }
  rewrite Hdrop, until_sep_app by done.
  destruct (rev (list_ascii_of_string nm)) as [| a l] eqn:E; [done |].
  rewrite <- E, rev_involutive. apply string_of_list_ascii_of_string.
Qed.

Lemma elem_of_limit {A : Type} (count : Z) (l : list A) (x : A) :
  x ∈ limit count l -> x ∈ l.
Proof.
  unfold limit. destruct (0 <? count); [| done].
  intros Hin. rewrite <- (take_drop (Z.to_nat count) l).
  apply elem_of_app. by left.
Qed.

(** On a reachable store every entry of a listing is the [Stat] of the
    file it names: [Stat] of the directory's prefix followed by the
    entry's name returns the entry itself, name, size, mode, time and
    flag. *)
Theorem readDir_entry_is_Stat (fs : BBolt) (dir : string) (count : Z)
    (info : fileInfo) :
  reachable fs -> info ∈ fst (readDir fs dir count) ->
  Stat fs (String.append (readDir_prefix dir) (fi_name info))
  = Returns (Ok info).
Proof.
  intros Hinv%reachable_files_inv. rewrite readDir_eq. cbn [fst].
  intros Hin%elem_of_limit.
  apply list_elem_of_omap in Hin as ([k v] & Hin & Hl).
  apply listed_Some in Hl as (nm & -> & Hne & Hc & ->).
  apply elem_of_cursor_entries in Hin. cbn [fi_name info_of].
  destruct (Hinv _ _ Hin) as [Hlen _].
  unfold Stat. rewrite (loadFile_entry fs _ v) by done.
  rewrite Base_append; [done | | done | done].
  destruct (readDir_prefix_cases dir)
    as [[_ ->] | [(s & -> & ->) | (_ & _ & ->)]]; [by left | right ..];
    by eexists.
Qed.

Lemma readDir_entry_is_Stat_witness :
  let fs := snd (Create New "dir/a.txt" 5) in
  let info := {| fi_name := "a.txt"; fi_size := 0; fi_mode := 438;
                 fi_modTime := 5; fi_isDir := false |} in
  fst (readDir fs "dir" 0) = [info] /\
  Stat fs "dir/a.txt" = Returns (Ok info).
Proof.
  intros fs info.
  assert (Hl : fst (readDir fs "dir" 0) = [info]) by (vm_compute; reflexivity).
  split; [exact Hl |].
  apply (readDir_entry_is_Stat fs "dir" 0 info).
  - apply reach_Create, reach_New.
  - rewrite Hl. apply elem_of_cons. left. reflexivity.
Defined.

(** *** What a listing does not show *)

(** Directories are never listed: [Mkdir] changes no listing, and the
    listing of a store is the listing of its file collection alone. *)
Theorem Mkdir_invisible_to_readDir (fs : BBolt) (p dir : string)
    (perm now count : Z) :
  readDir (snd (Mkdir fs p perm now)) dir count = readDir fs dir count.
Proof. unfold readDir. by rewrite Mkdir_files. Qed.

(** ** RemoveAll, once more *)

Lemma String_prefix_trans (a b k : string) :
  String.prefix a b = true -> String.prefix b k = true ->
  String.prefix a k = true.
Proof.
  intros [r ->]%String_prefix_inv [s ->]%String_prefix_inv.
  revert r s. induction a as [| c a IH]; intros r s;
    rewrite ?String_append_cons, ?String_append_nil.
  - by destruct (String.append r s).
  - cbn [String.prefix]. destruct (ascii_dec c c); [apply IH | done].
Qed.

Lemma String_prefix_refl (a : string) : String.prefix a a = true.
Proof.
  induction a as [| c a IH]; [done |].
  cbn [String.prefix]. by destruct (ascii_dec c c).
Qed.

(** After [RemoveAll] of a path no file is left under it: [Open] of any
    key that has the path as a prefix finds no file, and the listing of
    the path as a directory is empty. Directory entries other than the
    path's own are kept, those nested under the path included, so [Open]
    of a nested directory still returns its handle. *)
Theorem RemoveAll_then_Open_and_readDir (fs : BBolt) (p : string) :
  let fs' := snd (RemoveAll fs p) in
  (forall k, String.prefix p k = true ->
     Open fs' k
     = match dirs fs' !! k with
       | Some val =>
           Returns (Ok (ADir {| dname := k; dmeta := decodeMeta val |}))
       | None => Returns (Err ErrNotExist)
       end) /\
  (forall count, readDir fs' p count = ([], None)) /\
  (forall k, k <> p -> dirs fs' !! k = dirs fs !! k) /\
  dirs fs' !! p = None.
Proof.
  intros fs'. split; [| split; [| split]].
  - intros k Hk. unfold Open.
    rewrite loadFile_missing; [done |].
    unfold fs'. by rewrite RemoveAll_files_lookup, Hk.
  - intros count. rewrite readDir_eq. f_equal.
    assert (Hnil : omap (listed (readDir_prefix p)) (cursor_entries (files fs'))
                   = []).
    { destruct (omap _ _) as [| info l] eqn:E; [done |]. exfalso.
      assert (Hin : info ∈ omap (listed (readDir_prefix p))
                      (cursor_entries (files fs')))
        by (rewrite E; apply elem_of_cons; by left).
      apply list_elem_of_omap in Hin as ([k v] & Hin & Hl).
      apply listed_Some in Hl as (nm & -> & _).
      apply elem_of_cursor_entries in Hin.
      unfold fs' in Hin. rewrite RemoveAll_files_lookup in Hin.
      assert (Hp : String.prefix p (String.append (readDir_prefix p) nm) = true).
      { apply String_prefix_trans with (readDir_prefix p);
          [| apply String_prefix_append].
        destruct (readDir_prefix_cases p)
          as [[-> ->] | [(s & _ & ->) | (_ & _ & ->)]]; [done | |].
        - apply String_prefix_refl.
        - apply String_prefix_append. }
      by rewrite Hp in Hin. }
    rewrite Hnil. unfold limit. destruct (0 <? count); [apply take_nil | done].
  - intros k Hne. unfold fs'. cbn. unfold Delete. by rewrite lookup_delete_ne.
  - unfold fs'. cbn. unfold Delete. apply lookup_delete_eq.
Qed.

Lemma BBolt_eq (a b : BBolt) : files a = files b -> dirs a = dirs b -> a = b.
Proof. destruct a, b; cbn. by intros -> ->. Qed.

(** A second [RemoveAll] of the same path changes nothing. *)
Theorem RemoveAll_idempotent (fs : BBolt) (p : string) :
  RemoveAll (snd (RemoveAll fs p)) p = (None, snd (RemoveAll fs p)).
Proof.
  rewrite (surjective_pairing (RemoveAll (snd (RemoveAll fs p)) p)).
  f_equal. apply BBolt_eq.
  - apply map_eq. intros k. rewrite !RemoveAll_files_lookup.
    by destruct (String.prefix p k).
  - cbn. unfold Delete. apply map_eq. intros k. rewrite !lookup_delete.
    by repeat case_decide.
Qed.

(** ** MkdirAll *)

(** Backtracking keeps a suffix of the output, at least [dotdot] bytes of
    it. *)
Lemma Clean_backtrack_suffix (rout : list ascii) (last : ascii) (dotdot : nat) :
  exists gone,
    rout = gone ++ Clean_backtrack rout last dotdot /\
    (dotdot <= length rout -> dotdot <= length (Clean_backtrack rout last dotdot))%nat.
Proof.
  revert last. induction rout as [| y rout IH]; intros last.
  - exists []. split; [done | cbn; lia].
  - cbn [Clean_backtrack].
    destruct ((dotdot <? length (y :: rout))%nat && negb (is_sep last)) eqn:E.
    + destruct (IH y) as (gone & Hgone & Hlen).
      exists (y :: gone). split; [cbn; by rewrite <- Hgone |].
      intros _. apply Hlen.
      apply andb_true_iff in E as [E _]. apply Nat.ltb_lt in E. cbn in E. lia.
    + exists []. by split.
Qed.

Lemma Clean_copy_grows (rest rout : list ascii) :
  exists added, snd (Clean_copy rest rout) = added ++ rout.
Proof.
  revert rout. induction rest as [| a rest IH]; intros rout; cbn.
  - by exists [].
  - destruct (is_sep a); [by exists [] |].
    destruct (IH (a :: rout)) as [added ->].
    exists (added ++ [a]). by rewrite <- app_assoc.
Qed.

Lemma suffix_keeps_last (x g k : list ascii) (c : ascii) :
  x ++ [c] = g ++ k -> k <> [] -> exists k', k = k' ++ [c].
Proof.
  intros Heq Hk. destruct k as [| z k] using rev_ind; [done |].
  rewrite app_assoc in Heq. apply app_inj_tail in Heq as [_ ->].
  by exists k.
Qed.

(** On a rooted path the output keeps its leading slash. *)
Lemma Clean_loop_rooted (fuel : nat) (rest rout : list ascii) :
  exists out, Clean_loop fuel true rest (rout ++ ["/"%char]) 1 = out ++ ["/"%char].
Proof.
  revert rest rout. induction fuel as [| fuel IH]; intros rest rout;
    [by exists rout |].
  cbn [Clean_loop]. destruct rest as [| a rest1]; [by exists rout |].
  destruct (is_sep a); [apply IH |].
  destruct (is_dot a && _); [apply IH |].
  destruct (is_dot a && _).
  - destruct (Nat.ltb_spec 1 (length (rout ++ ["/"%char]))) as [Hlt | Hge].
    + destruct rout as [| last rout']; [cbn in Hlt; lia |].
      cbn [app].
      destruct (Clean_backtrack_suffix (rout' ++ ["/"%char]) last 1)
        as (gone & Hgone & Hlen).
      specialize (Hlen ltac:(rewrite length_app; cbn; lia)).
      destruct (suffix_keeps_last rout' gone _ "/"%char Hgone)
        as [kept ->]; [intros E; rewrite E in Hlen; cbn in Hlen; lia |].
      apply IH.
    + cbn [negb]. apply IH.
  - match goal with |- context [Clean_copy _ ?r] => set (rout1 := r) end.
    destruct (Clean_copy (a :: rest1) rout1) as [rest' rout2] eqn:HC.
    destruct (Clean_copy_grows (a :: rest1) rout1) as [added Hadd].
    rewrite HC in Hadd. cbn [snd] in Hadd. subst rout2.
    assert (Hr : exists r1, rout1 = r1 ++ ["/"%char]).
    { unfold rout1. destruct (_ || _); [by exists ("/"%char :: rout) | by exists rout]. }
    destruct Hr as [r1 ->]. rewrite app_assoc. apply IH.
Qed.

Lemma Split_rooted (s : string) :
  exists ds, Split (String "/" s) = ""%string :: ds.
Proof. unfold Split. cbn. by eexists. Qed.

Lemma string_of_list_ascii_app (a b : list ascii) :
  string_of_list_ascii (a ++ b)
  = String.append (string_of_list_ascii a) (string_of_list_ascii b).
Proof.
  induction a as [| c a IH]; [done |].
  cbn [app string_of_list_ascii]. by rewrite String_append_cons, IH.
Qed.

Lemma Clean_rooted (s : string) :
  exists t, Clean (String "/" s) = String "/" t.
Proof.
  unfold Clean. cbn [list_ascii_of_string]. cbv zeta.
  change (is_sep "/") with true. cbv iota.
  destruct (Clean_loop_rooted (length ("/"%char :: list_ascii_of_string s))
              (drop 1 ("/"%char :: list_ascii_of_string s)) [])
    as [out Hout].
  cbn [app] in Hout. rewrite Hout.
  destruct (out ++ ["/"%char]) as [| z zs] eqn:E;
    [by destruct out |].
  rewrite <- E, rev_app_distr. cbn [rev app].
  by eexists.
Qed.

(** [MkdirAll] of a path that begins with a slash creates nothing: the
    first ancestor it makes is the empty path, which the backend refuses,
    and the walk stops with that error. *)
Theorem MkdirAll_rooted_fails (fs : BBolt) (s : string) (perm : Z)
    (clock : nat -> Z) :
  MkdirAll fs (String "/" s) perm clock = (Some ErrKeyRequired, fs).
Proof.
  unfold MkdirAll.
  destruct (Clean_rooted s) as [t ->].
  destruct (Split_rooted t) as [ds ->].
  cbn [MkdirAll_loop String.eqb].
  unfold Mkdir, saveDir. rewrite Put_refuses; [by destruct fs |].
  intros [H _]. cbn in H. lia.
Qed.

(** *** Plain relative paths *)

Lemma plain_chars (s : string) :
  plain s ->
  Forall (fun a => is_sep a = false) (list_ascii_of_string s) /\
  list_ascii_of_string s <> [] /\
  list_ascii_of_string s <> ["."%char] /\
  list_ascii_of_string s <> ["."%char; "."%char].
Proof.
  intros (Hne & Hc & Hdot & Hdotdot).
  split; [by apply Contains_slash_false |].
  split; [by destruct s |].
  split; intros E; apply (f_equal string_of_list_ascii) in E;
    rewrite string_of_list_ascii_of_string in E; done.
Qed.

Lemma Clean_copy_app (l tail rout : list ascii) :
  Forall (fun a => is_sep a = false) l ->
  (tail = [] \/ exists t, tail = "/"%char :: t) ->
  Clean_copy (l ++ tail) rout = (tail, rev l ++ rout).
Proof.
  intros Hl Htail. revert rout.
  induction Hl as [| a l Ha Hl IH]; intros rout; cbn [app].
  - destruct Htail as [-> | [t ->]]; [done |]. cbn [Clean_copy].
    by change (is_sep "/") with true.
  - cbn [Clean_copy]. rewrite Ha, IH. cbn [rev]. by rewrite <- app_assoc.
Qed.

Lemma is_dot_true (a : ascii) : is_dot a = true -> a = "."%char.
Proof. unfold is_dot. apply Ascii.eqb_eq. Qed.

(** One turn of the loop on a plain element copies it, behind a slash
    when something was written before. *)
Lemma Clean_loop_plain_step (fuel : nat) (l tail rout : list ascii) :
  Forall (fun a => is_sep a = false) l -> l <> [] ->
  l <> ["."%char] -> l <> ["."%char; "."%char] ->
  (tail = [] \/ exists t, tail = "/"%char :: t) ->
  Clean_loop (S fuel) false (l ++ tail) rout 0
  = Clean_loop fuel false tail
      (rev l ++ match rout with [] => [] | _ => "/"%char :: rout end) 0.
Proof.
  intros Hl Hne Hdot Hdotdot Htail.
  destruct l as [| a l1]; [done |]. clear Hne.
  cbn [Clean_loop app]. apply Forall_cons in Hl as [Ha Hl1]. rewrite Ha.
  assert (Hhead : forall (l2 : list ascii),
            Forall (fun a => is_sep a = false) l2 ->
            match l2 ++ tail with
            | [] => true
            | b :: _ => is_sep b
            end = (if l2 is [] then true else false)).
  { intros l2 Hl2. destruct Hl2 as [| b l2 Hb _]; cbn [app]; [| done].
    by destruct Htail as [-> | [t ->]]. }
  assert (H1 : (is_dot a
                && match l1 ++ tail with
                   | [] => true
                   | b :: _ => is_sep b
                   end) = false).
  { rewrite Hhead by done. destruct (is_dot a) eqn:Ea; [| done].
    apply is_dot_true in Ea as ->. by destruct l1. }
  rewrite H1.
  assert (H2 : (is_dot a
                && match l1 ++ tail with
                   | b :: rest2 =>
                       is_dot b
                       && match rest2 with
                          | [] => true
                          | c :: _ => is_sep c
                          end
                   | [] => false
                   end) = false).
  { destruct (is_dot a) eqn:Ea; [| done]. apply is_dot_true in Ea as ->.
    destruct l1 as [| b l2]; [done |]. cbn [app andb].
    apply Forall_cons in Hl1 as [Hb Hl2]. rewrite Hhead by done.
    destruct (is_dot b) eqn:Eb; [| done]. apply is_dot_true in Eb as ->.
    by destruct l2. }
  rewrite H2. cbn [andb orb negb].
  change (a :: l1 ++ tail) with ((a :: l1) ++ tail).
  rewrite Clean_copy_app; [| by constructor | done].
  by destruct rout.
Qed.

Lemma join_path_cons (s : string) (rest : list string) :
  rest <> [] ->
  join_path (s :: rest)
  = String.append s (String.append "/" (join_path rest)).
Proof. by destruct rest. Qed.

Lemma Clean_loop_plain (segs : list string) :
  Forall plain segs -> segs <> [] ->
  forall fuel rout,
    (length (list_ascii_of_string (join_path segs)) <= fuel)%nat ->
    Clean_loop fuel false (list_ascii_of_string (join_path segs)) rout 0
    = rev (list_ascii_of_string (join_path segs))
      ++ match rout with [] => [] | _ => "/"%char :: rout end.
Proof.
  induction 1 as [| s rest Hs Hrest IH]; [done |]. intros _ fuel rout Hfuel.
  destruct (plain_chars s Hs) as (Hns & Hne & Hdot & Hdotdot).
  destruct rest as [| s2 rest].
  - cbn [join_path] in *.
    destruct fuel as [| fuel];
      [destruct (list_ascii_of_string s); [done | cbn in Hfuel; lia] |].
    rewrite <- (app_nil_r (list_ascii_of_string s)) at 1.
    rewrite Clean_loop_plain_step; [| done | done | done | done | by left].
    by destruct fuel.
  - rewrite join_path_cons in * by done.
    rewrite !list_ascii_of_string_append in *.
    change (list_ascii_of_string "/") with ["/"%char] in *.
    cbn [app] in *. rewrite length_app in Hfuel. cbn [length] in Hfuel.
    assert (Hlen : (0 < length (list_ascii_of_string s))%nat)
      by (destruct (list_ascii_of_string s); [done | cbn; lia]).
    destruct fuel as [| fuel]; [lia |].
    rewrite Clean_loop_plain_step; [| done | done | done | done | right; by eexists].
    destruct fuel as [| fuel]; [lia |].
    cbn [Clean_loop]. change (is_sep "/") with true. cbn match.
    rewrite IH; [| done |].
    + rewrite rev_app_distr. cbn [rev]. rewrite <- !app_assoc. cbn [app].
      destruct (rev (list_ascii_of_string s)
                ++ match rout with [] => [] | _ => "/"%char :: rout end)
        as [| z zs] eqn:E; [| done].
      apply app_eq_nil in E as [E _].
      apply (f_equal (@length ascii)) in E. rewrite length_rev in E.
      by destruct (list_ascii_of_string s).
    + lia.
Qed.

(** Cleaning a path of plain elements joined by single slashes returns
    it. *)
Lemma Clean_join_path (segs : list string) :
  Forall plain segs -> segs <> [] -> Clean (join_path segs) = join_path segs.
Proof.
  intros Hsegs Hne. unfold Clean. cbv zeta.
  pose proof (Clean_loop_plain segs Hsegs Hne
                (length (list_ascii_of_string (join_path segs))) []
                (Nat.le_refl _)) as Hloop.
  rewrite app_nil_r in Hloop.
  destruct (list_ascii_of_string (join_path segs)) as [| a l] eqn:El.
  - exfalso. destruct segs as [| s rest]; [done |].
    apply Forall_cons in Hsegs as [Hs _].
    destruct (plain_chars s Hs) as (_ & Hnes & _).
    destruct rest; [by cbn in El |].
    rewrite join_path_cons, list_ascii_of_string_append in El by done.
    by apply app_eq_nil in El as [? _].
  - assert (Ha : is_sep a = false).
    { destruct segs as [| s rest]; [done |].
      apply Forall_cons in Hsegs as [Hs _].
      destruct (plain_chars s Hs) as (Hns & Hnes & _).
      destruct rest as [| s2 rest].
      - cbn [join_path] in El. rewrite El in Hns. by apply Forall_cons in Hns as [? _].
      - rewrite join_path_cons, list_ascii_of_string_append in El by done.
        destruct (list_ascii_of_string s) as [| b l']; [done |].
        injection El as -> _. by apply Forall_cons in Hns as [? _]. }
    rewrite Ha, Hloop.
    destruct (rev (a :: l)) as [| z zs] eqn:E.
    + apply (f_equal (@length ascii)) in E. rewrite length_rev in E. done.
    + rewrite <- E, rev_involutive, <- El.
      apply string_of_list_ascii_of_string.
Qed.

Lemma Split_loop_app (l tail cur : list ascii) :
  Forall (fun a => is_sep a = false) l ->
  Split_loop (l ++ tail) cur = Split_loop tail (rev l ++ cur).
Proof.
  intros Hl. revert cur. induction Hl as [| a l Ha Hl IH]; intros cur; [done |].
  cbn [app Split_loop]. rewrite Ha, IH. cbn [rev]. by rewrite <- app_assoc.
Qed.

(** Splitting a path of plain elements at the slashes gives the elements
    back. *)
Lemma Split_join_path (segs : list string) :
  Forall plain segs -> segs <> [] -> Split (join_path segs) = segs.
Proof.
  unfold Split. induction 1 as [| s rest Hs Hrest IH]; [done |]. intros _.
  destruct (plain_chars s Hs) as (Hns & _).
  destruct rest as [| s2 rest].
  - cbn [join_path]. rewrite <- (app_nil_r (list_ascii_of_string s)).
    rewrite Split_loop_app by done. cbn [Split_loop].
    by rewrite app_nil_r, rev_involutive, string_of_list_ascii_of_string.
  - rewrite join_path_cons, !list_ascii_of_string_append by done.
    rewrite Split_loop_app by done.
    change (list_ascii_of_string "/") with ["/"%char].
    cbn [app Split_loop]. change (is_sep "/") with true. cbn match.
    rewrite app_nil_r, rev_involutive, string_of_list_ascii_of_string.
    f_equal. by apply IH.
Qed.

Lemma String_append_assoc (a b c : string) :
  String.append a (String.append b c) = String.append (String.append a b) c.
Proof.
  induction a as [| x a IH];
    rewrite ?String_append_cons, ?String_append_nil; [done | by rewrite IH].
Qed.

Lemma join_path_snoc (done : list string) (d : string) :
  done <> [] ->
  join_path (done ++ [d])
  = String.append (join_path done) (String.append "/" d).
Proof.
  induction done as [| s rest IH]; [done |]. intros _.
  destruct rest as [| s2 rest]; [reflexivity |].
  change ((s :: s2 :: rest) ++ [d]) with (s :: ((s2 :: rest) ++ [d])).
  rewrite (join_path_cons s ((s2 :: rest) ++ [d])) by done.
  rewrite IH by done. rewrite (join_path_cons s (s2 :: rest)) by done.
  by rewrite !String_append_assoc.
Qed.

Lemma join_path_nonempty (segs : list string) :
  Forall plain segs -> segs <> [] -> join_path segs <> ""%string.
Proof.
  intros Hsegs Hne E. destruct segs as [| s rest]; [done |].
  apply Forall_cons in Hsegs as [(Hs & _) _].
  destruct rest; [done |]. rewrite join_path_cons in E by done.
  destruct s; [done |]. by rewrite String_append_cons in E.
Qed.

(** The directory the loop of [MkdirAll] makes next, having made the
    elements [done] and meeting the plain element [d]. *)
Lemma MkdirAll_next_dir (done : list string) (d : string) :
  Forall plain (done ++ [d]) ->
  (if String.eqb (join_path done) "" then d else Join (join_path done) d)
  = join_path (done ++ [d]).
Proof.
  intros Hall. destruct done as [| s rest]; [done |].
  pose proof Hall as Hall'.
  apply Forall_app in Hall' as [Hdone Hd]. apply Forall_cons in Hd as [Hd _].
  pose proof (join_path_nonempty (s :: rest) Hdone ltac:(done)) as Hne.
  destruct (String.eqb_spec (join_path (s :: rest)) ""); [done |].
  unfold Join. destruct (String.eqb_spec (join_path (s :: rest)) ""); [done |].
  destruct Hd as (Hdne & _).
  destruct (String.eqb_spec d ""); [done |]. cbn [andb].
  rewrite <- join_path_snoc by done.
  apply Clean_join_path; [done | by destruct rest].
Qed.

Lemma join_path_length_snoc (done : list string) (d : string) :
  d <> ""%string ->
  (String.length (join_path done) < String.length (join_path (done ++ [d])))%nat.
Proof.
  intros Hd. destruct done as [| s rest].
  - cbn. destruct d; [done | cbn; lia].
  - rewrite join_path_snoc by done. rewrite !String_length_append. cbn. lia.
Qed.

Lemma join_path_length_app (done rest : list string) :
  Forall plain rest ->
  (String.length (join_path done) <= String.length (join_path (done ++ rest)))%nat
  /\ (rest <> [] ->
      String.length (join_path done) < String.length (join_path (done ++ rest)))%nat.
Proof.
  intros Hrest. revert done.
  induction Hrest as [| d rest Hd Hrest IH]; intros done.
  - rewrite app_nil_r. split; [lia | done].
  - replace (done ++ d :: rest) with ((done ++ [d]) ++ rest)
      by (by rewrite <- app_assoc).
    destruct (IH (done ++ [d])) as [IH1 _].
    pose proof (join_path_length_snoc done d (proj1 Hd)). lia.
Qed.

Lemma MkdirAll_loop_plain (perm : Z) (clock : nat -> Z) (rest : list string) :
  forall (done : list string) (fs : BBolt) (i : nat),
    Forall plain (done ++ rest) ->
    Z.of_nat (String.length (join_path (done ++ rest))) <= MaxKeySize ->
    exists fs',
      MkdirAll_loop fs rest (join_path done) perm clock i = (None, fs') /\
      files fs' = files fs /\
      (forall j, (j < length rest)%nat ->
         dirs fs' !! join_path (done ++ take (S j) rest)
         = Some (encodeMeta {| Mode := Z.lor perm ModeDir; Size := 0;
                               ModTime := clock (i + j)%nat;
                               IsDir := true |})) /\
      (forall k,
         (forall j, (j < length rest)%nat ->
            k <> join_path (done ++ take (S j) rest)) ->
         dirs fs' !! k = dirs fs !! k).
Proof.
  induction rest as [| d rest IH]; intros done fs i Hall Hlen.
  - exists fs. split; [done |]. split; [done |].
    split; [intros j Hj; cbn in Hj; lia | done].
  - cbn [MkdirAll_loop].
    assert (Hsplit : done ++ d :: rest = (done ++ [d]) ++ rest)
      by (by rewrite <- app_assoc).
    rewrite Hsplit in Hall, Hlen.
    pose proof Hall as Hall'. apply Forall_app in Hall' as [Hdone Hrest].
    rewrite MkdirAll_next_dir by done.
    set (k0 := join_path (done ++ [d])).
    assert (Hk0 : valid_key k0).
    { split.
      - pose proof (join_path_nonempty (done ++ [d]) Hdone
                      ltac:(by destruct done)) as Hne.
        fold k0 in Hne. destruct k0; [done | cbn; lia].
      - destruct (join_path_length_app (done ++ [d]) rest Hrest) as [Hle _].
        fold k0 in Hle. lia. }
    unfold Mkdir, saveDir.
    rewrite Put_accepts;
      [| done | rewrite length_encodeMeta; cbn; unfold MaxValueSize; lia].
    destruct (IH (done ++ [d])
                {| files := files fs;
                   dirs := <[k0 := encodeMeta
                               {| Mode := Z.lor perm ModeDir; Size := 0;
                                  ModTime := clock i; IsDir := true |}]>
                             (dirs fs) |} (S i) Hall Hlen)
      as (fs' & Hloop & Hfiles & Hmade & Hframe).
    exists fs'. split; [exact Hloop |]. split; [done |].
    assert (Hlater : forall j, (j < length rest)%nat ->
              k0 <> join_path ((done ++ [d]) ++ take (S j) rest)).
    { intros j Hj E.
      destruct (join_path_length_app (done ++ [d]) (take (S j) rest))
        as [_ Hlt].
      - by apply Forall_take.
      - specialize (Hlt ltac:(destruct rest; [cbn in Hj; lia | done])).
        fold k0 in Hlt. rewrite <- E in Hlt. lia. }
    split.
    + intros [| j] Hj.
      * rewrite Nat.add_0_r. cbn [take]. fold k0.
        rewrite Hframe; [cbn [dirs]; apply lookup_insert_eq | exact Hlater].
      * cbn [length] in Hj. cbn [take].
        replace (done ++ d :: take (S j) rest)
          with ((done ++ [d]) ++ take (S j) rest)
          by (by rewrite <- app_assoc).
        rewrite Hmade by lia. do 4 f_equal. lia.
    + intros k Hk. rewrite Hframe.
      * cbn [dirs]. apply lookup_insert_ne.
        specialize (Hk 0%nat ltac:(cbn; lia)). cbn [take] in Hk. by fold k0 in Hk.
      * intros j Hj. specialize (Hk (S j) ltac:(cbn; lia)).
        cbn [take] in Hk. by rewrite <- app_assoc.
Qed.

(** [MkdirAll] of a relative path made of plain elements joined by single
    slashes, within the backend's key limit, succeeds. It stores one
    directory entry for every ancestor, from the first element down to
    the whole path, each with the directory bit in its mode and the clock
    read when it was made; it changes no other directory entry and no
    file entry, and [Stat] reports each ancestor that is not also a file
    as a directory. *)
Theorem MkdirAll_creates_ancestors (fs : BBolt) (segs : list string)
    (perm : Z) (clock : nat -> Z) :
  Forall plain segs -> segs <> [] ->
  Z.of_nat (String.length (join_path segs)) <= MaxKeySize ->
  exists fs',
    MkdirAll fs (join_path segs) perm clock = (None, fs') /\
    files fs' = files fs /\
    (forall j, (j < length segs)%nat ->
       dirs fs' !! join_path (take (S j) segs)
       = Some (encodeMeta {| Mode := Z.lor perm ModeDir; Size := 0;
                             ModTime := clock j; IsDir := true |}) /\
       (files fs !! join_path (take (S j) segs) = None ->
        exists info,
          Stat fs' (join_path (take (S j) segs)) = Returns (Ok info) /\
          fi_isDir info = true)) /\
    (forall k,
       (forall j, (j < length segs)%nat -> k <> join_path (take (S j) segs)) ->
       dirs fs' !! k = dirs fs !! k).
Proof.
  intros Hsegs Hne Hlen. unfold MkdirAll.
  rewrite Clean_join_path, Split_join_path by done.
  destruct (MkdirAll_loop_plain perm clock segs [] fs 0%nat Hsegs Hlen)
    as (fs' & Hloop & Hfiles & Hmade & Hframe).
  exists fs'. split; [exact Hloop |]. split; [done |]. split; [| done].
  intros j Hj. specialize (Hmade j Hj). cbn [app Nat.add] in Hmade.
  split; [done |].
  intros Hnone. unfold Stat.
  rewrite loadFile_missing by (by rewrite Hfiles).
  unfold Get. rewrite Hmade. by eexists.
Qed.

Lemma MkdirAll_creates_ancestors_witness :
  exists fs',
    MkdirAll New "a/b/c" 493 (fun i => Z.of_nat i) = (None, fs') /\
    (exists info, Stat fs' "a/b" = Returns (Ok info) /\ fi_isDir info = true).
Proof.
  destruct (MkdirAll_creates_ancestors New ["a"; "b"; "c"]%string 493
              (fun i => Z.of_nat i))
    as (fs' & HM & _ & Hmade & _).
  - repeat constructor; discriminate.
  - discriminate.
  - vm_compute. discriminate.
  - exists fs'. split; [exact HM |].
    destruct (Hmade 1%nat) as [_ HS]; [cbn; lia |].
    apply HS. reflexivity.
Defined.

(** ** Creating and removing under a directory *)

(** A file created under a directory's prefix, with a non-empty name
    without a slash, appears in the directory's listing as an empty
    regular file of mode 0666 with the creation time; once it is removed
    no listing of the directory shows its name. *)
Theorem Create_then_readDir_then_Remove (fs : BBolt) (dir nm : string)
    (now count : Z) :
  let key := String.append (readDir_prefix dir) nm in
  valid_key key -> nm <> ""%string -> Contains nm "/" = false ->
  is_int64 now ->
  let fs1 := snd (Create fs key now) in
  {| fi_name := nm; fi_size := 0; fi_mode := 438; fi_modTime := now;
     fi_isDir := false |} ∈ fst (readDir fs1 dir 0) /\
  nm ∉ fi_name <$> fst (readDir (snd (Remove fs1 key)) dir count).
Proof.
  intros key Hk Hne Hc Hnow fs1. split.
  - rewrite readDir_eq. cbn [fst]. unfold limit. cbn [Z.ltb Z.compare].
    apply list_elem_of_omap.
    exists (key, encodeMeta (mkMeta 438 0 now false) ++ []). split.
    + apply elem_of_cursor_entries. unfold fs1, Create.
      rewrite saveFile_accepts;
        [| done | rewrite length_app, length_encodeMeta; cbn;
                  unfold MaxValueSize; lia].
      cbn. apply lookup_insert_eq.
    + apply listed_Some. exists nm. split; [done |]. split; [done |].
      split; [done |].
      rewrite decodeMeta_encodeMeta_app;
        [done | unfold is_uint32; cbn; lia | unfold is_int64; cbn; lia | done].
  - intros Hin. apply list_elem_of_fmap in Hin as (info & Hname & Hin).
    rewrite readDir_eq in Hin. cbn [fst] in Hin.
    apply elem_of_limit, list_elem_of_omap in Hin as ([k v] & Hin & Hl).
    apply listed_Some in Hl as (nm' & -> & _ & _ & ->).
    cbn [fi_name info_of] in Hname. subst nm'.
    apply elem_of_cursor_entries in Hin. cbn in Hin. unfold Delete in Hin.
    fold key in Hin. by rewrite lookup_delete_eq in Hin.
Qed.

Lemma Create_then_readDir_then_Remove_witness :
  let fs1 := snd (Create New "dir/a.txt" 5) in
  {| fi_name := "a.txt"; fi_size := 0; fi_mode := 438; fi_modTime := 5;
     fi_isDir := false |} ∈ fst (readDir fs1 "dir" 0) /\
  "a.txt"%string ∉ fi_name <$> fst (readDir (snd (Remove fs1 "dir/a.txt")) "dir" 0).
Proof.
  apply (Create_then_readDir_then_Remove New "dir" "a.txt" 5 0).
  - split; vm_compute; [lia | discriminate].
  - discriminate.
  - reflexivity.
  - unfold is_int64. lia.
Defined.

(** ** Witnesses for the listing and removal properties *)

Lemma readDir_count_limit_witness :
  let fs := snd (Create (snd (Create New "d/a" 1)) "d/b" 2) in
  fi_name <$> fst (readDir fs "d" 1) = ["a"%string] /\
  fi_name <$> fst (readDir fs "d" 0) = ["a"; "b"]%string.
Proof.
  intros fs.
  destruct (readDir_count_limit fs "d" 1) as (_ & H1 & _).
  destruct (H1 ltac:(lia)) as [-> _].
  split; vm_compute; reflexivity.
Defined.

Lemma RemoveAll_then_Open_and_readDir_witness :
  let fs := snd (Create (snd (Mkdir New "d/sub" 493 1)) "d/sub/f" 2) in
  Open (snd (RemoveAll fs "d")) "d/sub/f" = Returns (Err ErrNotExist) /\
  exists h, Open (snd (RemoveAll fs "d")) "d/sub" = Returns (Ok (ADir h)).
Proof.
  intros fs.
  destruct (RemoveAll_then_Open_and_readDir fs "d") as (HO & _).
  split.
  - rewrite (HO "d/sub/f"%string) by reflexivity. vm_compute. reflexivity.
  - rewrite (HO "d/sub"%string) by reflexivity. vm_compute. by eexists.
Defined.
